(** * dln-taker: the order pipeline of the universal processor, the executor's
      configuration checks and the swap-connector table

    A shallow embedding of
      - [src/executors/executor.ts], lines 1-590, the executor:
        [BLOCK_CONFIRMATIONS_HARD_CAPS], [Executor.resyncDecimals],
        [Executor.getSrcConstraints], [Executor.getSrcConstraintsPerOrderValue];
      - the same file, lines 591-1219, the universal processor
        ([UniversalProcessor]): [process], [clearInternalQueues], [tryProcess],
        [pickNextOrder], [processOrder];
      - [src/processors/swap-connector-implementation.service.ts]:
        [getSupportedChains], [setSupportedChains].
    Line numbers are those of these two files.

    Conventions.  A JavaScript [bigint] is a [Z].  A JavaScript [number] that
    holds a count (block confirmations, attempts, gas units, decimals) is a
    [Z]; a [number] that holds a USD amount is a [jsnum] (a rational, an
    infinity or NaN) when it is compared, and a [Q] in the configuration.  A
    [Set<string>] is a duplicate-free list in insertion order, a
    [Map<string, _>] a [gmap string _].  A rejected promise or a [throw] is the
    [Throw] outcome; [undefined] is [None]. *)

From Stdlib Require Import ZArith QArith Qround String List.
From stdpp Require Import gmap strings list fin_maps.
From Stdlib Require Import Sorted.

Open Scope Z_scope.

(** ** JavaScript values *)

Module JS.

(** What a thrown error carries is never inspected by the code modelled
    here, except for its origin. *)
Inductive Error : Type :=
| HardCapExceeded          (* executor.ts, line 476 *)
| MissingOrderData         (* "Unexpected: missing data for order" *)
| UnexpectedOrderStatus    (* "Unexpected order status: ..." *)
| UnsupportedChain         (* "Unsupported chain in swap connector" *)
| TypeError                (* a property of [undefined] was read *)
| Rejected.                (* a collaborator's promise was rejected *)

Inductive Res (A : Type) : Type :=
| Ok (a : A)
| Throw (e : Error).
Arguments Ok {A} a.
Arguments Throw {A} e.

Definition is_Throw {A} (r : Res A) : bool :=
  match r with Ok _ => false | Throw _ => true end.

(** [a || 0] on an optional count: [undefined] and [0] both give [0]. *)
Definition or_zero (o : option Z) : Z := default 0 o.

(** [a || b || 0] on optional counts: the first operand that is truthy. *)
Definition truthy (o : option Z) : bool :=
  match o with Some z => negb (z =? 0) | None => false end.

Definition or_else (a b : option Z) : option Z := if truthy a then a else b.

(** A [number] as far as [<] and [<=] see it. *)
Inductive jsnum : Type :=
| NaN
| NegInf
| Fin (q : Q)
| PosInf.

Definition Qlt_bool (x y : Q) : bool := negb (Qle_bool y x).

(** [x < y] *)
Definition lt (x y : jsnum) : bool :=
  match x, y with
  | NaN, _ | _, NaN => false
  | NegInf, NegInf => false
  | NegInf, _ => true
  | Fin _, NegInf => false
  | Fin p, Fin q => Qlt_bool p q
  | Fin _, PosInf => true
  | PosInf, _ => false
  end.

(** [x <= y] *)
Definition le (x y : jsnum) : bool :=
  match x, y with
  | NaN, _ | _, NaN => false
  | NegInf, _ => true
  | Fin _, NegInf => false
  | Fin p, Fin q => Qle_bool p q
  | Fin _, PosInf => true
  | PosInf, PosInf => true
  | PosInf, _ => false
  end.

(** [Math.round(g * 1.25)] for a count [g]: the product [5g/4] is exact in
    binary64 for every [g] below [2^50], and [Math.round] is
    [floor (x + 1/2)]. *)
Definition round_mul_1_25 (g : Z) : Z :=
  Qfloor (inject_Z g * (5 # 4) + (1 # 2)).

(** [Array.prototype.find] *)
Definition find {A} (p : A -> bool) (l : list A) : option A := List.find p l.

End JS.
Export JS.

(** ** The identifiers of @debridge-finance/dln-client used here *)

(** The members of [ChainId] are the keys of the connector table of the
    swap-connector service, whose type [{ [key in ChainId]: ... }] makes it
    list every member. *)
Inductive ChainId : Type :=
| Ethereum | BSC | Heco | Polygon | Arbitrum | Avalanche | AvalancheTest
| Kovan | BSCTest | HecoTest | PolygonTest | ArbitrumTest | Solana | Fantom
| Linea | Base | Optimism.

#[global] Instance ChainId_eq_dec : EqDecision ChainId.
Proof. solve_decision. Defined.

Inductive ChainEngine : Type := EVM | SolanaEngine.

(** [getEngineByChainId] of the client library: Solana has its own engine,
    every other chain of [ChainId] is an EVM chain. *)
Definition getEngineByChainId (c : ChainId) : ChainEngine :=
  match c with Solana => SolanaEngine | _ => EVM end.

(** [Address] is a byte array ([Uint8Array]); a [string] is a list of bytes. *)
Definition Address : Type := string.

(** ** executor.ts *)

Module Executor.

Module SupportedChain.
(** [SupportedChain] (declared in ../config): its members are the keys of
    [BLOCK_CONFIRMATIONS_HARD_CAPS], typed [{ [key in SupportedChain]: number }]. *)
Inductive t : Type :=
| Arbitrum | Avalanche | BSC | Ethereum | Fantom | Linea | Base | Optimism
| Polygon | Solana.
End SupportedChain.

Definition BLOCK_CONFIRMATIONS_HARD_CAPS (chain : SupportedChain.t) : Z :=
  match chain with
  | SupportedChain.Arbitrum => 15
  | SupportedChain.Avalanche => 15
  | SupportedChain.BSC => 15
  | SupportedChain.Ethereum => 12
  | SupportedChain.Fantom => 15
  | SupportedChain.Linea => 15
  | SupportedChain.Base => 15
  | SupportedChain.Optimism => 15
  | SupportedChain.Polygon => 256
  | SupportedChain.Solana => 32
  end.

(** [RawSrcOrderConstraints] of ../config: [{ fulfillmentDelay?: number }]. *)
Record RawSrcOrderConstraints : Type := {
  raw_fulfillmentDelay : option Z
}.

(** An entry of [requiredConfirmationsThresholds]. *)
Record RequiredConfirmationsThreshold : Type := {
  thresholdAmountInUSD : Q;
  minBlockConfirmations : option Z;
  threshold_fulfillmentDelay : option Z
}.

(** [ChainDefinition['constraints']], as far as the two functions below
    read it. *)
Record ChainConstraints : Type := {
  fulfillmentDelay : option Z;
  requiredConfirmationsThresholds : option (list RequiredConfirmationsThreshold)
}.

(** An entry of [SrcConstraintsPerOrderValue]. *)
Record SrcConstraintRange : Type := {
  upperThreshold : Q;
  range_minBlockConfirmations : Z;
  range_fulfillmentDelay : Z
}.

(** [getSrcConstraints(primaryConstraints, defaultConstraints?)]:
    [primary?.fulfillmentDelay || default?.fulfillmentDelay || 0]. *)
Definition getSrcConstraints (primaryConstraints : RawSrcOrderConstraints)
    (defaultConstraints : option RawSrcOrderConstraints) : Z :=
  or_zero (or_else (raw_fulfillmentDelay primaryConstraints)
                   (defaultConstraints ≫= raw_fulfillmentDelay)).

(** The callback of [.map] in [getSrcConstraintsPerOrderValue]. *)
Definition toSrcConstraintRange (chain : SupportedChain.t)
    (configDstConstraints : ChainConstraints)
    (constraint : RequiredConfirmationsThreshold) : Res SrcConstraintRange :=
  if BLOCK_CONFIRMATIONS_HARD_CAPS chain <=? or_zero (minBlockConfirmations constraint)
  then Throw HardCapExceeded
  else Ok {|
    upperThreshold := thresholdAmountInUSD constraint;
    range_minBlockConfirmations := or_zero (minBlockConfirmations constraint);
    range_fulfillmentDelay :=
      getSrcConstraints
        {| raw_fulfillmentDelay := threshold_fulfillmentDelay constraint |}
        (Some {| raw_fulfillmentDelay := fulfillmentDelay configDstConstraints |})
  |}.

(** [Array.prototype.map] with a callback that may throw: the first throw,
    in the order of the array, ends the call. *)
Fixpoint mapRes {A B} (f : A -> Res B) (l : list A) : Res (list B) :=
  match l with
  | [] => Ok []
  | x :: l' =>
      match f x with
      | Throw e => Throw e
      | Ok y =>
          match mapRes f l' with
          | Throw e => Throw e
          | Ok ys => Ok (y :: ys)
          end
      end
  end.

(** [.sort((a, b) => a.upperThreshold - b.upperThreshold)]: the sort of an
    array is stable, so an entry stays in front of the later entries with
    the same threshold. *)
Fixpoint insertByUpperThreshold (x : SrcConstraintRange)
    (l : list SrcConstraintRange) : list SrcConstraintRange :=
  match l with
  | [] => [x]
  | y :: l' =>
      if Qle_bool (upperThreshold x) (upperThreshold y)
      then x :: y :: l'
      else y :: insertByUpperThreshold x l'
  end.

Definition sortByUpperThreshold (l : list SrcConstraintRange)
    : list SrcConstraintRange :=
  foldr insertByUpperThreshold [] l.

(** [getSrcConstraintsPerOrderValue(chain, configDstConstraints)];
    [init] calls it for every configured chain (line 401), outside any
    [try], so what it throws ends [init]. *)
Definition getSrcConstraintsPerOrderValue (chain : SupportedChain.t)
    (configDstConstraints : ChainConstraints) : Res (list SrcConstraintRange) :=
  match mapRes (toSrcConstraintRange chain configDstConstraints)
               (default [] (requiredConfirmationsThresholds configDstConstraints)) with
  | Throw e => Throw e
  | Ok ranges => Ok (sortByUpperThreshold ranges)
  end.

(** [resyncDecimals(chainIn, tokenIn, amountIn, chainOut, tokenOut)].
    [getDecimals] is [this.client.getDecimals]; [None] is a rejected
    promise, which rejects the call.  Division of bigints truncates
    towards zero ([Z.quot]). *)
Definition resyncDecimals (getDecimals : ChainId -> Address -> option Z)
    (chainIn : ChainId) (tokenIn : Address) (amountIn : Z)
    (chainOut : ChainId) (tokenOut : Address) : option Z :=
  decimalsIn ← getDecimals chainIn tokenIn;
  decimalsOut ← getDecimals chainOut tokenOut;
  if decimalsIn =? decimalsOut then Some amountIn
  else
    let delta := decimalsIn - decimalsOut in
    if 0 <? delta
    then Some (amountIn `quot` 10 ^ delta)
    else Some (amountIn * 10 ^ (- delta)).

(** *** The destination constraints, and what [init] announces to the feed *)

(** [.sort((a, b) => key(a) - key(b))] on any array, as in
    [sortByUpperThreshold]: a stable sort, ascending in the key. *)
Fixpoint insertByKey {A} (key : A -> Q) (x : A) (l : list A) : list A :=
  match l with
  | [] => [x]
  | y :: l' =>
      if Qle_bool (key x) (key y)
      then x :: y :: l'
      else y :: insertByKey key x l'
  end.

Definition sortByKey {A} (key : A -> Q) (l : list A) : list A :=
  foldr (insertByKey key) [] l.

(** ["taker" | "maker"] *)
Inductive ChangeRecipient : Type := taker | maker.

(** [RawDstOrderConstraints] of ../config:
    [{ fulfillmentDelay?: number; preFulfillSwapChangeRecipient?: "taker" | "maker" }]. *)
Record RawDstOrderConstraints : Type := {
  raw_dst_fulfillmentDelay : option Z;
  raw_preFulfillSwapChangeRecipient : option ChangeRecipient
}.

(** [DstOrderConstraints], lines 65-68. *)
Record DstOrderConstraints : Type := {
  dst_fulfillmentDelay : Z;
  preFulfillSwapChangeRecipient : ChangeRecipient
}.

(** An entry of [perOrderValueUpperThreshold]: its threshold and its own
    constraints. *)
Record UpperThresholdConstraint : Type := {
  config_upperThreshold : Q;
  config_constraints : RawDstOrderConstraints
}.

(** [ChainDefinition['dstConstraints']]: the chain's own constraints and the
    per-value entries. *)
Record ChainDstConstraints : Type := {
  dst_defaults : RawDstOrderConstraints;
  perOrderValueUpperThreshold : option (list UpperThresholdConstraint)
}.

(** An entry of [DstConstraintsPerOrderValue], lines 70-74. *)
Record DstConstraintRange : Type := {
  dst_upperThreshold : Q;
  dst_constraints : DstOrderConstraints
}.

(** [a || b] on optional recipients: both strings are truthy, so the first
    one that is given. *)
Definition or_recipient (a b : option ChangeRecipient) : option ChangeRecipient :=
  match a with Some _ => a | None => b end.

(** [getDstConstraints(primaryConstraints, defaultConstraints?)], lines 465-470. *)
Definition getDstConstraints (primaryConstraints : RawDstOrderConstraints)
    (defaultConstraints : option RawDstOrderConstraints) : DstOrderConstraints :=
  {| dst_fulfillmentDelay :=
       or_zero (or_else (raw_dst_fulfillmentDelay primaryConstraints)
                        (defaultConstraints ≫= raw_dst_fulfillmentDelay));
     preFulfillSwapChangeRecipient :=
       default taker
         (or_recipient (raw_preFulfillSwapChangeRecipient primaryConstraints)
                       (defaultConstraints ≫= raw_preFulfillSwapChangeRecipient)) |}.

(** [getDstConstraintsPerOrderValue(configDstConstraints)], lines 455-463. *)
Definition getDstConstraintsPerOrderValue (configDstConstraints : ChainDstConstraints)
    : list DstConstraintRange :=
  sortByKey dst_upperThreshold
    (map (fun constraint =>
            {| dst_upperThreshold := config_upperThreshold constraint;
               dst_constraints :=
                 getDstConstraints (config_constraints constraint)
                                   (Some (dst_defaults configDstConstraints)) |})
         (default [] (perOrderValueUpperThreshold configDstConstraints))).

(** [init], lines 442-444: the confirmation points of one chain,
    [perOrderValue.map(t => t.minBlockConfirmations).filter(t => t > 0)]. *)
Definition confirmationPoints (perOrderValue : list SrcConstraintRange) : list Z :=
  List.filter (fun t => 0 <? t) (map range_minBlockConfirmations perOrderValue).

(** [init], lines 439-446: [minConfirmationThresholds], over
    [Object.values(this.chains)] given as each chain's id and its
    [srcConstraints.perOrderValue]. *)
Definition minConfirmationThresholds
    (chains : list (ChainId * list SrcConstraintRange)) : list (ChainId * list Z) :=
  List.filter (fun range => (0 <? length (snd range))%nat)
    (map (fun chain => (fst chain, confirmationPoints (snd chain))) chains).

End Executor.

(** ** swap-connector-implementation.service.ts *)

Module SwapConnectorImplementationService.

(** The connectors the constructor and [initSolana] create. *)
Inductive SwapConnector : Type :=
| OneInchV4Connector
| OneInchV5Connector
| JupiterConnectorV6.

(** [#connectors]: a connector or [null] for every chain. *)
Definition Connectors : Type := ChainId -> option SwapConnector.

(** [Object.keys(this.#connectors)]: the table has every member of
    [ChainId] as a key from its construction on, and no key is ever
    added or deleted. *)
Definition keys : list ChainId :=
  [Ethereum; BSC; Heco; Polygon; Arbitrum; Avalanche; AvalancheTest; Kovan;
   BSCTest; HecoTest; PolygonTest; ArbitrumTest; Solana; Fantom; Linea; Base;
   Optimism].




(** [connector !== null] *)
Definition notNull (o : option SwapConnector) : bool :=
  match o with Some _ => true | None => false end.

Definition getSupportedChains (connectors : Connectors) : list ChainId :=
  List.filter (fun chainId => notNull (connectors chainId)) keys.

(** The callback of [forEach] in [setSupportedChains]: the comparison
    [this.#connectors[chainId] === null] is evaluated and its value is
    dropped; the table is handed on as it is. *)
Definition disableCallback (connectors : Connectors) (chainId : ChainId)
    : Connectors :=
  let _ := negb (notNull (connectors chainId)) in connectors.

(** [chains.includes(chainId)], read with the types the source declares
    (the keys are cast to [ChainId]). *)
Definition includes (chains : list ChainId) (chainId : ChainId) : bool :=
  bool_decide (chainId ∈ chains).

Definition setSupportedChains (chains : list ChainId)
    (connectors : Connectors) : Connectors :=
  fold_left disableCallback
    (List.filter (fun chainId => negb (includes chains chainId)) keys)
    connectors.

(** [#getConnector] *)
Definition getConnector (connectors : Connectors) (chainId : ChainId)
    : Res SwapConnector :=
  match connectors chainId with
  | None => Throw UnsupportedChain
  | Some connector => Ok connector
  end.

End SwapConnectorImplementationService.

(** ** The universal processor *)

Module OrderInfoStatus.
(** Modelled from the spec: [OrderInfoStatus] (../interfaces is not among the
    sources), "status ∈ {Created, ArchivalCreated, Fulfilled,
    ArchivalFulfilled, Cancelled, Other}"; [Other] stands for every status the
    [switch] of [process] sends to its [default] branch. *)
Inductive t : Type :=
| Created | ArchivalCreated | ArchivalFulfilled | Fulfilled | Cancelled
| Other.
End OrderInfoStatus.

Module OrderState.
(** [OrderState] of the client library (@debridge-finance/dln-client); the
    processor compares a state with [NotSet] and with [Created] only. *)
Inductive t : Type := NotSet | Created | Fulfilled | SentUnlock | OrderCancelled.

Definition eqb (a b : t) : bool :=
  match a, b with
  | NotSet, NotSet | Created, Created | Fulfilled, Fulfilled
  | SentUnlock, SentUnlock | OrderCancelled, OrderCancelled => true
  | _, _ => false
  end.
End OrderState.

Module UniversalProcessor.

(** *** Orders and their context *)

(** Modelled from the spec: the [finalization_info] of a created order,
    "Revoked | Confirmed{confirmation_blocks_count} | Finalized" (its type is
    declared in ../interfaces); lines 909-968 read it in this shape. *)
Inductive FinalizationInfo : Type :=
| Revoked
| Confirmed (confirmation_blocks_count : Z)
| Finalized.

(** [OrderData] of the client library: [give] and [take], each a chain, a
    token and an amount. *)
Record Offer : Type := {
  chainId : ChainId;
  tokenAddress : Address;
  amount : Z
}.

Record OrderData : Type := {
  give : Offer;
  take : Offer
}.

(** Modelled from the spec: [IncomingOrder] (declared in ../interfaces), with
    the fields the processor reads; [finalization_info] is read for [Created]
    only. *)
Record IncomingOrder : Type := {
  orderId : string;
  status : OrderInfoStatus.t;
  order : OrderData;
  finalization_info : FinalizationInfo
}.

(** Modelled from the spec: a range of [usdAmountConfirmations] (its type
    and the code that builds the ranges are not among the sources), with the
    three fields lines 946-954 read: the order is matched when
    [usdWorthFrom < usdWorth <= usdWorthTo]. *)
Record UsdWorthRange : Type := {
  usdWorthFrom : jsnum;
  usdWorthTo : jsnum;
  minBlockConfirmations : Z
}.

(** An entry of [context.config.chains], as far as [processOrder] reads it. *)
Record SupportedChainConfig : Type := {
  usdAmountConfirmations : list UsdWorthRange
}.

(** [OrderProcessorContext]: of [context.config] the processor itself
    reads [chains]; everything else it hands to its collaborators, whose
    answers are in [Env] below. *)
Record OrderProcessorContext : Type := {
  config_chains : ChainId -> option SupportedChainConfig
}.

(** Modelled from the spec: [IncomingOrderContext] (declared in
    ../interfaces), "an order bundled with the runtime context"; [attempts] is
    the count line 1125 compares with [maxFastTrackAttempts]. *)
Record IncomingOrderContext : Type := {
  orderInfo : IncomingOrder;
  context : OrderProcessorContext;
  attempts : Z
}.

(** *** Collaborators that are not part of the processor *)

(** A fulfill transaction: what the processor sets on it, and the rest. *)
Record Tx : Type := {
  tx_payload : string;
  gas : option Z;
  cappedGasPrice : option Z
}.

(** What [calculateExpectedTakeAmount] returns. *)
Record ExpectedTakeAmount : Type := {
  reserveDstToken : Address;
  requiredReserveDstAmount : Z;
  isProfitable : bool;
  reserveToTakeSlippageBps : option Z
}.

(** What [pickReserveToken] returns. *)
Record PickedBucket : Type := {
  picked_reserveSrcToken : Address;
  picked_reserveDstToken : Address
}.

(** The answers of the collaborators to one run of [processOrder], in the
    order in which it asks. *)
Record Env : Type := {
  (* [context.config.buckets.find(...) !== undefined] *)
  bucketFound : bool;
  (* [(await client.getTakeOrderStatus(...))?.status] *)
  getTakeOrderStatus : Res (option OrderState.t);
  (* [(await client.getGiveOrderStatus(...))?.status] *)
  getGiveOrderStatus : Res (option OrderState.t);
  (* [getPrice] and [getDecimals] of the give token, and
     [rate * amount / 10^decimals] as a number *)
  usdWorth : Res jsnum;
  pickReserveToken : Res PickedBucket;
  (* [getDecimals] of the reserve tokens: source, destination *)
  reserveTokenDecimals : Res (Z * Z);
  (* [fulfillProvider.getBalance(reserveDstToken)] *)
  getBalance : Res Z;
  (* [createOrderFullfillTx] with the dummy slippage *)
  preliminaryFulfillTx : Res Tx;
  getGasPrice : Res Z;
  (* [estimateGas] of the preliminary transaction *)
  preliminaryEstimateGas : Res Z;
  calculateExpectedTakeAmount : Res ExpectedTakeAmount;
  (* [createOrderFullfillTx] with the computed slippage *)
  finalFulfillTx : Res Tx;
  (* [estimateGas] of the final transaction *)
  finalEstimateGas : Res Z;
  (* [fulfillProvider.sendTransaction] *)
  sendTransaction : Res unit;
  (* [waitIsOrderFulfilled], of the base processor *)
  waitIsOrderFulfilled : Res unit
}.

(** Modelled from the spec: the mempool scheduler (./mempool.service is not
    among the sources).  It "maintains a per-order record" keyed by the
    order id; [addOrder(params, delay?)] schedules a re-entry after [delay]
    seconds, or after the standard back-off when no delay is given;
    [delete(orderId)] cancels it. *)
Record MempoolEntry : Type := {
  entry_params : IncomingOrderContext;
  entry_delay : option Z
}.

(** Modelled from the spec: the batch unlocker (./BatchUnlocker is not
    among the sources), as the sequence of orders handed to it. *)
Inductive BatchCall : Type :=
| UnlockOrder (orderId : string)   (* [unlockOrder(orderId, order, context)] *)
| AddOrder (orderId : string).     (* [addOrder(orderId, order, context)] *)

(** *** The state of one processor *)

Record Processor : Type := {
  (* [this.takeChain.chain] *)
  takeChain : ChainId;
  priorityQueue : list string;
  queue : list string;
  incomingOrdersMap : gmap string IncomingOrderContext;
  isLocked : bool;
  mempoolService : gmap string MempoolEntry;
  batchUnlocker : list BatchCall;
  (* the transactions handed to [fulfillProvider.sendTransaction] *)
  sentTransactions : list Tx;
  (* the call of [processOrder] that [tryProcess] is awaiting: its argument
     and the value of [this.incomingOrdersMap.get(orderId)] on its first
     line, which runs together with the taking of the lock *)
  inFlight : option (string * option IncomingOrderContext)
}.

Definition set_priorityQueue (f : list string -> list string) (s : Processor) :=
  {| takeChain := takeChain s; priorityQueue := f (priorityQueue s);
     queue := queue s; incomingOrdersMap := incomingOrdersMap s;
     isLocked := isLocked s; mempoolService := mempoolService s;
     batchUnlocker := batchUnlocker s; sentTransactions := sentTransactions s;
     inFlight := inFlight s |}.

Definition set_queue (f : list string -> list string) (s : Processor) :=
  {| takeChain := takeChain s; priorityQueue := priorityQueue s;
     queue := f (queue s); incomingOrdersMap := incomingOrdersMap s;
     isLocked := isLocked s; mempoolService := mempoolService s;
     batchUnlocker := batchUnlocker s; sentTransactions := sentTransactions s;
     inFlight := inFlight s |}.

Definition set_incomingOrdersMap
    (f : gmap string IncomingOrderContext -> gmap string IncomingOrderContext)
    (s : Processor) :=
  {| takeChain := takeChain s; priorityQueue := priorityQueue s;
     queue := queue s; incomingOrdersMap := f (incomingOrdersMap s);
     isLocked := isLocked s; mempoolService := mempoolService s;
     batchUnlocker := batchUnlocker s; sentTransactions := sentTransactions s;
     inFlight := inFlight s |}.

Definition set_mempoolService
    (f : gmap string MempoolEntry -> gmap string MempoolEntry) (s : Processor) :=
  {| takeChain := takeChain s; priorityQueue := priorityQueue s;
     queue := queue s; incomingOrdersMap := incomingOrdersMap s;
     isLocked := isLocked s; mempoolService := f (mempoolService s);
     batchUnlocker := batchUnlocker s; sentTransactions := sentTransactions s;
     inFlight := inFlight s |}.

Definition set_batchUnlocker (f : list BatchCall -> list BatchCall) (s : Processor) :=
  {| takeChain := takeChain s; priorityQueue := priorityQueue s;
     queue := queue s; incomingOrdersMap := incomingOrdersMap s;
     isLocked := isLocked s; mempoolService := mempoolService s;
     batchUnlocker := f (batchUnlocker s); sentTransactions := sentTransactions s;
     inFlight := inFlight s |}.

Definition set_sentTransactions (f : list Tx -> list Tx) (s : Processor) :=
  {| takeChain := takeChain s; priorityQueue := priorityQueue s;
     queue := queue s; incomingOrdersMap := incomingOrdersMap s;
     isLocked := isLocked s; mempoolService := mempoolService s;
     batchUnlocker := batchUnlocker s; sentTransactions := f (sentTransactions s);
     inFlight := inFlight s |}.

(** Taking and releasing the lock; the awaited call goes with it. *)
Definition set_lock (b : bool)
    (call : option (string * option IncomingOrderContext)) (s : Processor) :=
  {| takeChain := takeChain s; priorityQueue := priorityQueue s;
     queue := queue s; incomingOrdersMap := incomingOrdersMap s;
     isLocked := b; mempoolService := mempoolService s;
     batchUnlocker := batchUnlocker s; sentTransactions := sentTransactions s;
     inFlight := call |}.

(** A processor after [init] on [chain]. *)
Definition initial (chain : ChainId) : Processor :=
  {| takeChain := chain; priorityQueue := []; queue := [];
     incomingOrdersMap := ∅; isLocked := false; mempoolService := ∅;
     batchUnlocker := []; sentTransactions := []; inFlight := None |}.

(** [Set.prototype.add]: a set keeps its members in insertion order, and
    adding a member again leaves it where it is. *)
Definition set_add (x : string) (l : list string) : list string :=
  if bool_decide (x ∈ l) then l else l ++ [x].

(** [Set.prototype.delete] *)
Definition set_delete (x : string) (l : list string) : list string :=
  filter (fun y => y ≠ x) l.

(** [set.values().next().value] *)
Definition first_value (l : list string) : option string := head l.

(** Truthiness of a string or [undefined]. *)
Definition truthy_id (o : option string) : bool :=
  match o with
  | Some id => negb (bool_decide (id = ""%string))
  | None => false
  end.

(** *** Control flow: a state, and a value, an early [return] or a [throw] *)

Inductive Flow (A : Type) : Type :=
| Next (a : A)
| Return
| Raise (e : Error).
Arguments Next {A} a.
Arguments Return {A}.
Arguments Raise {A} e.

Definition M (A : Type) : Type := Processor -> Flow A * Processor.

#[global] Instance M_ret : MRet M := fun A a s => (Next a, s).

#[global] Instance M_bind : MBind M := fun A B k m s =>
  match m s with
  | (Next a, s') => k a s'
  | (Return, s') => (Return, s')
  | (Raise e, s') => (Raise e, s')
  end.

(** [return;] *)
Definition return_ {A} : M A := fun s => (Return, s).

(** [throw] *)
Definition throw {A} (e : Error) : M A := fun s => (Raise e, s).

(** [await] of a collaborator's answer. *)
Definition await {A} (r : Res A) : M A :=
  match r with Ok a => mret a | Throw e => throw e end.

Definition modify (f : Processor -> Processor) : M unit :=
  fun s => (Next tt, f s).

Definition when (b : bool) (m : M unit) : M unit :=
  if b then m else mret tt.

(** *** The mempool scheduler and the batch unlocker, as the processor
    drives them *)

(** Modelled from the spec: [mempoolService.addOrder(params, delay?)]. *)
Definition mempool_addOrder (params : IncomingOrderContext) (delay : option Z)
    : M unit :=
  modify (set_mempoolService
            (insert (orderId (orderInfo params))
                    {| entry_params := params; entry_delay := delay |})).

(** Modelled from the spec: [mempoolService.delete(orderId)]. *)
Definition mempool_delete (id : string) : M unit :=
  modify (set_mempoolService (delete id)).

(** Modelled from the spec: [batchUnlocker.unlockOrder] and
    [batchUnlocker.addOrder]. *)
Definition batch_unlockOrder (id : string) : M unit :=
  modify (set_batchUnlocker (fun calls => calls ++ [UnlockOrder id])).

Definition batch_addOrder (id : string) : M unit :=
  modify (set_batchUnlocker (fun calls => calls ++ [AddOrder id])).

(** *** The methods of the processor *)

(** [clearInternalQueues(orderId)], lines 788-793. *)
Definition clearInternalQueues (id : string) : M unit :=
  modify (set_queue (set_delete id));;
  modify (set_priorityQueue (set_delete id));;
  modify (set_incomingOrdersMap (delete id));;
  mempool_delete id.

(** [pickNextOrder()], lines 845-856: [a || b] is [b] unless [a] is truthy. *)
Definition pickNextOrder : M (option string) := fun s =>
  let nextOrderId :=
    if truthy_id (first_value (priorityQueue s))
    then first_value (priorityQueue s)
    else first_value (queue s) in
  match nextOrderId with
  | Some id =>
      if truthy_id nextOrderId
      then (Next (Some id),
            set_queue (set_delete id) (set_priorityQueue (set_delete id) s))
      else (Next None, s)
  | None => (Next None, s)
  end.

(** [tryProcess(orderId)], lines 795-830, up to the call of [processOrder]
    it awaits: an order that finds the lock taken is queued; otherwise the
    lock is taken and [processOrder(orderId)] starts. *)
Definition tryProcess (id : string) : M unit := fun s =>
  match incomingOrdersMap s !! id with
  | None => (Raise MissingOrderData, s)
  | Some params =>
      if isLocked s then
        match status (orderInfo params) with
        | OrderInfoStatus.ArchivalCreated =>
            (Return, set_queue (set_add (orderId (orderInfo params))) s)
        | OrderInfoStatus.Created =>
            (Return, set_priorityQueue (set_add (orderId (orderInfo params))) s)
        | _ => (Raise UnexpectedOrderStatus, s)
        end
      else
        (Next tt, set_lock true (Some (id, incomingOrdersMap s !! id)) s)
  end.

(** [usdWorthRange.usdWorthFrom < usdWorth && usdWorth <= usdWorthRange.usdWorthTo] *)
Definition inRange (w : jsnum) (r : UsdWorthRange) : bool :=
  lt (usdWorthFrom r) w && le w (usdWorthTo r).

(** [processOrder], lines 904-972: the block confirmation thresholds.
    The value is [allowPlaceToMempool]. *)
Definition confirmationStage (env : Env) (params : IncomingOrderContext)
    : M bool :=
  let orderInfo := orderInfo params in
  match status orderInfo with
  | OrderInfoStatus.Created =>
      match finalization_info orderInfo with
      | Revoked =>
          clearInternalQueues (orderId orderInfo);;
          return_
      | Confirmed announcedConfirmation =>
          usdWorth ← await (usdWorth env);
          match config_chains (context params) (chainId (give (order orderInfo))) with
          | None => throw TypeError
          | Some giveChainConfig =>
              let range := find (inRange usdWorth)
                                (usdAmountConfirmations giveChainConfig) in
              (* [if (range?.minBlockConfirmations)]: there is a range and
                 its count is truthy, that is, not [0] *)
              match range with
              | Some range =>
                  if truthy (Some (minBlockConfirmations range)) then
                    if announcedConfirmation <? minBlockConfirmations range
                    then return_
                    else mret false
                  else return_
              | None => return_
              end
          end
      | Finalized => mret true
      end
  | _ => mret true
  end.

(** [BigNumber(x).integerValue()]: to the nearest integer, a tie away from
    zero. *)
Definition integerValue (x : Q) : Z :=
  if Qle_bool 0 x then Qfloor (x + (1 # 2)) else Qceiling (x - (1 # 2)).

(** [BigNumber(amount).div(BigNumber(10).pow(decimalsSrc - decimalsDst)).integerValue()];
    the quotient is exact within the 20 decimal places [BigNumber] keeps
    as long as the decimals differ by at most 20. *)
Definition roughReserveDstAmount (amount decimalsSrc decimalsDst : Z) : Z :=
  integerValue (inject_Z amount / Qpower (inject_Z 10) (decimalsSrc - decimalsDst)).

(** [currentGasPrice.multipliedBy(1.3).integerValue()] *)
Definition cappedGasPriceOf (currentGasPrice : Z) : Z :=
  integerValue (inject_Z currentGasPrice * (13 # 10)).

(** [evmFulfillGas > evmFulfillGasLimit!]: a comparison with [undefined]
    is false. *)
Definition exceeds (evmFulfillGas : Z) (evmFulfillGasLimit : option Z) : bool :=
  match evmFulfillGasLimit with
  | Some limit => limit <? evmFulfillGas
  | None => false
  end.

(** [processOrder], lines 996-1056: the preliminary estimation on an EVM
    take chain.  The value is [(evmFulfillGasLimit, evmFulfillCappedGasPrice)]. *)
Definition preEstimationStage (env : Env) (params : IncomingOrderContext)
    : M (option Z * option Z) := fun s =>
  match getEngineByChainId (takeChain s) with
  | EVM =>
      match preliminaryFulfillTx env, getGasPrice env, preliminaryEstimateGas env with
      | Ok _, Ok currentGasPrice, Ok evmFulfillGasLimit =>
          (Next (Some (round_mul_1_25 evmFulfillGasLimit),
                 Some (cappedGasPriceOf currentGasPrice)), s)
      | _, _, _ =>
          (mempool_addOrder params None;; return_) s
      end
  | SolanaEngine => (Next (None, None), s)
  end.

(** [processOrder], lines 1116-1138: the final gas estimation when the
    order's take chain is an EVM chain.  The value is the transaction to
    broadcast. *)
Definition finalEstimationStage (env : Env) (params : IncomingOrderContext)
    (fulfillTx : Tx) (evmFulfillGasLimit evmFulfillCappedGasPrice : option Z)
    : M Tx :=
  match getEngineByChainId (chainId (take (order (orderInfo params)))) with
  | EVM =>
      match finalEstimateGas env with
      | Ok evmFulfillGas =>
          if exceeds evmFulfillGas evmFulfillGasLimit then
            let maxFastTrackAttempts := 2 in
            let fastTrackDelay := 5 in
            mempool_addOrder params
              (if attempts params <? maxFastTrackAttempts
               then Some fastTrackDelay else None);;
            return_
          else
            mret {| tx_payload := tx_payload fulfillTx;
                    gas := evmFulfillGasLimit;
                    cappedGasPrice := evmFulfillCappedGasPrice |}
      | Throw _ =>
          mempool_addOrder params None;;
          return_
      end
  | SolanaEngine => mret fulfillTx
  end.

(** [processOrder], lines 974-1162: from the balance check to the hand-over
    to the batch unlocker. *)
Definition fulfillStage (env : Env) (params : IncomingOrderContext)
    (allowPlaceToMempool : bool) : M unit :=
  let orderInfo := orderInfo params in
  pickedBucket ← await (pickReserveToken env);
  decimals ← await (reserveTokenDecimals env);
  let roughReserveDstAmount :=
    roughReserveDstAmount (amount (give (order orderInfo)))
                          (fst decimals) (snd decimals) in
  accountReserveBalance ← await (getBalance env);
  when (accountReserveBalance <? roughReserveDstAmount)
    (mempool_addOrder params None;; return_);;
  caps ← preEstimationStage env params;
  expected ← await (calculateExpectedTakeAmount env);
  when (negb (isProfitable expected))
    (when allowPlaceToMempool (mempool_addOrder params None);; return_);;
  when (negb (bool_decide (reserveDstToken expected
                           = picked_reserveDstToken pickedBucket)))
    return_;;
  fulfillTx ← await (finalFulfillTx env);
  fulfillTx ← finalEstimationStage env params fulfillTx (fst caps) (snd caps);
  modify (set_sentTransactions (fun txs => txs ++ [fulfillTx]));;
  match sendTransaction env with
  | Throw _ =>
      when allowPlaceToMempool (mempool_addOrder params None);;
      return_
  | Ok _ =>
      await (waitIsOrderFulfilled env);;
      clearInternalQueues (orderId orderInfo);;
      batch_addOrder (orderId orderInfo)
  end.

(** [processOrder(orderId)], lines 858-1162.  [lookup] is the value of
    [this.incomingOrdersMap.get(orderId)] on its first line. *)
Definition processOrder (env : Env) (id : string)
    (lookup : option IncomingOrderContext) : M unit :=
  match lookup with
  | None => throw MissingOrderData
  | Some params =>
      when (negb (bucketFound env)) return_;;
      takeOrderStatus ← await (getTakeOrderStatus env);
      when (match takeOrderStatus with
            | Some st => negb (OrderState.eqb st OrderState.NotSet)
            | None => false
            end) return_;;
      giveOrderStatus ← await (getGiveOrderStatus env);
      when (match giveOrderStatus with
            | Some st => negb (OrderState.eqb st OrderState.Created)
            | None => true
            end) return_;;
      allowPlaceToMempool ← confirmationStage env params;
      fulfillStage env params allowPlaceToMempool
  end.

(** [tryProcess], lines 829-843, from the moment the awaited
    [processOrder] settles: what it threw is caught and logged, the lock is
    released, the next order is picked and [tryProcess] is called on it. *)
Definition tryProcess_resume (env : Env) : M unit := fun s =>
  match inFlight s with
  | None => (Return, s)
  | Some (id, lookup) =>
      let s1 :=
        match processOrder env id lookup s with
        | (Raise e, s1) => s1        (* [catch (e)]: logged *)
        | (_, s1) => s1
        end in
      let s2 := set_lock false None s1 in
      match pickNextOrder s2 with
      | (Next (Some nextOrder), s3) => tryProcess nextOrder s3
      | (_, s3) => (Return, s3)
      end
  end.

(** [process(params)], lines 748-786; for a created order, up to the first
    [await] of the [processOrder] it may start. *)
Definition process (params : IncomingOrderContext) : M unit :=
  let orderInfo := orderInfo params in
  let orderId := orderId orderInfo in
  match status orderInfo with
  | OrderInfoStatus.ArchivalCreated
  | OrderInfoStatus.Created =>
      modify (set_incomingOrdersMap (insert orderId params));;
      tryProcess orderId
  | OrderInfoStatus.ArchivalFulfilled =>
      batch_unlockOrder orderId;;
      return_
  | OrderInfoStatus.Cancelled =>
      clearInternalQueues orderId;;
      return_
  | OrderInfoStatus.Fulfilled =>
      clearInternalQueues orderId;;
      batch_unlockOrder orderId;;
      return_
  | OrderInfoStatus.Other => return_
  end.

(** *** The pipeline as a transition system *)

(** Modelled from the spec: a mempool timer fires; "a re-entered order is
    delivered to the same [process] entry point as a fresh order with a
    bumped [attempts]".  The spec does not say whether the scheduler drops
    its record at that moment ([forget]) or keeps it; both are modelled. *)
Definition mempool_fire (forget : bool) (id : string) : M unit := fun s =>
  match mempoolService s !! id with
  | None => (Return, s)
  | Some entry =>
      let params := entry_params entry in
      process {| orderInfo := orderInfo params; context := context params;
                 attempts := attempts params + 1 |}
              (if forget then set_mempoolService (delete id) s else s)
  end.

(** One step of a pipeline: the feed delivers an event (the executor
    passes an order on only if its id is not empty, line 513), the awaited
    [processOrder] settles with the answers [env], or a mempool timer
    fires.  Whatever [processOrder] changes in the processor it changes in
    its last synchronous stretch, right before it returns (every
    [mempoolService.addOrder] and the first [clearInternalQueues] are followed
    by [return], the last [clearInternalQueues] and [batchUnlocker.addOrder]
    end the function), and it reads nothing of the processor after its first
    line but the take chain; so the events delivered while it runs are steps of
    their own before the step in which it settles. *)
Inductive step : Processor -> Processor -> Prop :=
| step_process params s :
    orderId (orderInfo params) ≠ ""%string ->
    step s (snd (process params s))
| step_resume env s :
    step s (snd (tryProcess_resume env s))
| step_mempool forget id s :
    step s (snd (mempool_fire forget id s)).

Definition reachable (chain : ChainId) (s : Processor) : Prop :=
  rtc step (initial chain) s.

(** The places an order id can be in. *)
Definition inPriorityQueue (id : string) (s : Processor) : bool :=
  bool_decide (id ∈ priorityQueue s).
Definition inSecondaryQueue (id : string) (s : Processor) : bool :=
  bool_decide (id ∈ queue s).
Definition isInFlight (id : string) (s : Processor) : bool :=
  match inFlight s with
  | Some (id', _) => bool_decide (id = id')
  | None => false
  end.
Definition inMempool (id : string) (s : Processor) : bool :=
  bool_decide (is_Some (mempoolService s !! id)).
Definition inIncomingOrdersMap (id : string) (s : Processor) : bool :=
  bool_decide (is_Some (incomingOrdersMap s !! id)).

(** In how many of the priority queue, the secondary queue, the in-flight
    slot and the mempool scheduler the id is. *)
Definition places (id : string) (s : Processor) : nat :=
  (Nat.b2n (inPriorityQueue id s) + Nat.b2n (inSecondaryQueue id s)
   + Nat.b2n (isInFlight id s) + Nat.b2n (inMempool id s))%nat.

(** The first checks of [processOrder], lines 864-902, let the order
    through: a bucket covers it, the take chain has no record of it (the
    status is [undefined] or [NotSet]) and the give chain has it as
    [Created]. *)
Definition passesOnChainChecks (env : Env) : Prop :=
  bucketFound env = true
  /\ (getTakeOrderStatus env = Ok None
      \/ getTakeOrderStatus env = Ok (Some OrderState.NotSet))
  /\ getGiveOrderStatus env = Ok (Some OrderState.Created).

(** Queue disjointness as the specification words it: in every reachable
    state an order id is in at most one of the four places. *)
Definition queue_disjointness : Prop :=
  forall chain s id, reachable chain s -> (places id s <= 1)%nat.

(** The processor at the moment the [processOrder] it awaits settles with
    the answers [env]. *)
Definition processOrder_settled (env : Env) (s : Processor) : Processor :=
  match inFlight s with
  | Some (id, lookup) => snd (processOrder env id lookup s)
  | None => s
  end.

(** What holds of every state a pipeline can be in (see
    [reachable_invariant] below). *)
Record pipeline_invariant (s : Processor) : Prop := {
  inv_lock : isLocked s = true <-> is_Some (inFlight s);
  inv_idle : isLocked s = false -> priorityQueue s = [] /\ queue s = [];
  inv_nodup_priority : NoDup (priorityQueue s);
  inv_nodup_queue : NoDup (queue s);
  inv_queued : forall id,
    id ∈ priorityQueue s \/ id ∈ queue s ->
    is_Some (incomingOrdersMap s !! id);
  inv_incoming : forall id p,
    incomingOrdersMap s !! id = Some p ->
    orderId (orderInfo p) = id /\ id ≠ ""%string;
  inv_inFlight : forall id lookup,
    inFlight s = Some (id, lookup) ->
    exists p, lookup = Some p /\ orderId (orderInfo p) = id /\ id ≠ ""%string;
  inv_mempool : forall id e,
    mempoolService s !! id = Some e ->
    orderId (orderInfo (entry_params e)) = id /\ id ≠ ""%string
}.

(** [m] keeps [P]: a Hoare triple with the same pre- and postcondition,
    whatever way [m] ends. *)
Definition preserves {A} (P : Processor -> Prop) (m : M A) : Prop :=
  forall s, P s -> P (snd (m s)).

(** *** The parameters of a processor *)

(** [UniversalProcessorParams], lines 636-662. *)
Record UniversalProcessorParams : Type := {
  minProfitabilityBps : Z;
  mempoolInterval : Z;
  mempoolMaxDelayStep : Z;
  batchUnlockSize : Z
}.

(** [Partial<UniversalProcessorParams>]: each field may be left out; a field
    that is given is an integer (a [number] that is [NaN] or has a fraction,
    and a key given as [undefined], are not modelled). *)
Record PartialParams : Type := {
  given_minProfitabilityBps : option Z;
  given_mempoolInterval : option Z;
  given_mempoolMaxDelayStep : option Z;
  given_batchUnlockSize : option Z
}.

(** The initial value of [this.params], lines 672-677. *)
Definition defaultParams : UniversalProcessorParams :=
  {| minProfitabilityBps := 4; mempoolInterval := 60;
     mempoolMaxDelayStep := 30; batchUnlockSize := 10 |}.

(** [Object.assign(this.params, params)]: a field that is given replaces
    the one in place. *)
Definition assignParams (target : UniversalProcessorParams) (source : PartialParams)
    : UniversalProcessorParams :=
  {| minProfitabilityBps :=
       default (minProfitabilityBps target) (given_minProfitabilityBps source);
     mempoolInterval := default (mempoolInterval target) (given_mempoolInterval source);
     mempoolMaxDelayStep :=
       default (mempoolMaxDelayStep target) (given_mempoolMaxDelayStep source);
     batchUnlockSize := default (batchUnlockSize target) (given_batchUnlockSize source) |}.

(** The constructor, lines 679-689; [None] is the throw of
    "batchUnlockSize should be in [1, 10]". *)
Definition construct (params : option PartialParams) : option UniversalProcessorParams :=
  let batchUnlockSize := params ≫= given_batchUnlockSize in
  if match batchUnlockSize with
     | Some size => (10 <? size) || (size <? 1)
     | None => false
     end
  then None
  else Some (match params with
             | Some given => assignParams defaultParams given
             | None => defaultParams
             end).

(** [batchSize] of [processOrder], lines 1058-1062: [null] when either chain
    of the order is Solana. *)
Definition batchSize (params : UniversalProcessorParams) (order : OrderData)
    : option Z :=
  if bool_decide (chainId (give order) = Solana)
     || bool_decide (chainId (take order) = Solana)
  then None
  else Some (batchUnlockSize params).

(** *** Runs of the pipeline without new events *)

(** The calls of [processOrder] end one after the other, and no event comes
    in between: [envs] holds the collaborators' answers for each call in
    turn. *)
Fixpoint resumeAll (envs : list Env) (s : Processor) : Processor :=
  match envs with
  | [] => s
  | env :: envs => resumeAll envs (snd (tryProcess_resume env s))
  end.

(** The orders that wait for the slot. *)
Definition backlog (s : Processor) : nat :=
  (length (priorityQueue s) + length (queue s))%nat.

End UniversalProcessor.

(** ** executor.ts: [createOrderFullfillTx] *)

Module FulfillTx.
Import UniversalProcessor.





End FulfillTx.

(** ** executor.ts: [execute] and [executeOrder] *)

Module ExecutorOrders.
Import UniversalProcessor.

(** An initialised [OrderFilter]: its answer for an order, or a rejected
    promise.  The context it is given (logger, executor, give and take chain)
    is fixed by the executor and the order. *)
Definition OrderFilter : Type := OrderData -> Res bool.

(** [ExecutorSupportedChain], lines 87-104, as far as [executeOrder] reads it. *)
Record ExecutorSupportedChain : Type := {
  srcFilters : list OrderFilter;
  dstFilters : list OrderFilter
}.

(** [this.chains] *)
Definition Chains : Type := ChainId -> option ExecutorSupportedChain.

(** What the feed hands to [execute]: an [IncomingOrder] whose [order] may
    be missing. *)
Record NextOrderInfo : Type := {
  next_orderId : string;
  next_status : OrderInfoStatus.t;
  next_order : option OrderData;
  next_finalization_info : FinalizationInfo
}.

(** A call [takeChain.orderProcessor.process({ orderInfo, context })]: the
    chain whose processor is called and the order passed. *)
Inductive ProcessCall : Type :=
| ProcessOn (takeChain : ChainId) (orderInfo : IncomingOrder).

(** How [executeOrder] ends. *)
Inductive Outcome : Type :=
| Returned (accepted : bool)
| OrderIsUndefined              (* [throw new Error("Order is undefined")] *)
| FilterRejected (e : Error).   (* a filter's promise was rejected *)

(** [[Created, ArchivalCreated].includes(status)] *)
Definition isCreation (st : OrderInfoStatus.t) : bool :=
  match st with
  | OrderInfoStatus.Created | OrderInfoStatus.ArchivalCreated => true
  | _ => false
  end.

(** [await Promise.all(listOrderFilters.map(filter => filter(order, ...)))] *)
Definition runFilters (listOrderFilters : list OrderFilter) (order : OrderData)
    : Res (list bool) :=
  Executor.mapRes (fun filter => filter order) listOrderFilters.

(** [orderFilters.every(it => it)] *)
Definition every (orderFilters : list bool) : bool := forallb id orderFilters.

(** [executeOrder(nextOrderInfo, logger)], lines 508-589: how it ends and the
    calls of [process] it makes. *)
Definition executeOrder (chains : Chains) (nextOrderInfo : NextOrderInfo)
    : Outcome * list ProcessCall :=
  match next_order nextOrderInfo with
  | None => (OrderIsUndefined, [])
  | Some order =>
      if bool_decide (next_orderId nextOrderInfo = ""%string)
      then (OrderIsUndefined, [])
      else
        match chains (chainId (take order)) with
        | None => (Returned false, [])
        | Some takeChain =>
            match chains (chainId (give order)) with
            | None => (Returned false, [])
            | Some giveChain =>
                let listOrderFilters := dstFilters takeChain ++ srcFilters giveChain in
                let pass :=
                  (Returned true,
                   [ProcessOn (chainId (take order))
                      {| orderId := next_orderId nextOrderInfo;
                         status := next_status nextOrderInfo;
                         order := order;
                         finalization_info := next_finalization_info nextOrderInfo |}]) in
                if isCreation (next_status nextOrderInfo) then
                  match runFilters listOrderFilters order with
                  | Throw e => (FilterRejected e, [])
                  | Ok orderFilters =>
                      if every orderFilters then pass else (Returned false, [])
                  end
                else pass
            end
        end
  end.

(** [execute(nextOrderInfo)], lines 495-506: what [executeOrder] throws is
    caught and logged; the calls of [process] it made stay made. *)
Definition execute (chains : Chains) (nextOrderInfo : NextOrderInfo)
    : list ProcessCall :=
  snd (executeOrder chains nextOrderInfo).

(** [init], lines 360-373: the filters of a take chain are the chain's own
    [dstFilters], then [filters.disableFulfill()] if the chain is disabled,
    then the global [filters]. *)
Definition initDstFilters (chainDstFilters : option (list OrderFilter))
    (disabled : bool) (disableFulfill : OrderFilter)
    (globalFilters : option (list OrderFilter)) : list OrderFilter :=
  (default [] chainDstFilters ++ (if disabled then [disableFulfill] else []))
  ++ default [] globalFilters.

End ExecutorOrders.

(** ** Concrete orders, configurations and answers *)

Module Scenarios.
Import UniversalProcessor.

(** Decimals: 6 for "USDC", 18 for every other token. *)
Definition sampleDecimals : ChainId -> Address -> option Z :=
  fun _ token => if bool_decide (token = "USDC"%string) then Some 6 else Some 18.

Definition usd (z : Z) : jsnum := Fin (inject_Z z).

(** The ranges (0, 1000] with 12 confirmations and (1000, ∞] with 32. *)
Definition ranges : list UsdWorthRange :=
  [ {| usdWorthFrom := usd 0; usdWorthTo := usd 1000; minBlockConfirmations := 12 |};
    {| usdWorthFrom := usd 1000; usdWorthTo := PosInf; minBlockConfirmations := 32 |} ].

(** The single range (0, 1000] with no confirmations asked for. *)
Definition zeroRange : UsdWorthRange :=
  {| usdWorthFrom := usd 0; usdWorthTo := usd 1000; minBlockConfirmations := 0 |}.

Definition contextOf (ranges : list UsdWorthRange) : OrderProcessorContext :=
  {| config_chains := fun _ => Some {| usdAmountConfirmations := ranges |} |}.

(** 100 units of a token on Ethereum for 99 units on Polygon. *)
Definition orderData : OrderData :=
  {| give := {| chainId := Ethereum; tokenAddress := "USDC"; amount := 100 |};
     take := {| chainId := Polygon; tokenAddress := "USDC"; amount := 99 |} |}.

Definition incoming (id : string) (st : OrderInfoStatus.t)
    (info : FinalizationInfo) (ranges : list UsdWorthRange) (attempts : Z)
    : IncomingOrderContext :=
  {| orderInfo := {| orderId := id; status := st; order := orderData;
                     finalization_info := info |};
     context := contextOf ranges;
     attempts := attempts |}.

Definition fulfillTx : Tx :=
  {| tx_payload := "fulfill"; gas := None; cappedGasPrice := None |}.

(** Collaborators that all answer, with the given take-order status, USD
    worth, reserve balance and the two gas estimates; the reserve tokens
    have equal decimals and the order is profitable. *)
Definition answers (takeStatus : Res (option OrderState.t)) (worth : jsnum)
    (balance preliminaryGas finalGas : Z) : Env :=
  {| bucketFound := true;
     getTakeOrderStatus := takeStatus;
     getGiveOrderStatus := Ok (Some OrderState.Created);
     usdWorth := Ok worth;
     pickReserveToken :=
       Ok {| picked_reserveSrcToken := "USDC"; picked_reserveDstToken := "USDC" |};
     reserveTokenDecimals := Ok (6, 6);
     getBalance := Ok balance;
     preliminaryFulfillTx := Ok fulfillTx;
     getGasPrice := Ok 30;
     preliminaryEstimateGas := Ok preliminaryGas;
     calculateExpectedTakeAmount :=
       Ok {| reserveDstToken := "USDC"; requiredReserveDstAmount := 100;
             isProfitable := true; reserveToTakeSlippageBps := Some 10 |};
     finalFulfillTx := Ok fulfillTx;
     finalEstimateGas := Ok finalGas;
     sendTransaction := Ok tt;
     waitIsOrderFulfilled := Ok tt |}.

(** Everything goes well: worth 500 USD, balance 200, gas 100000 then 120000. *)
Definition allGood : Env :=
  answers (Ok (Some OrderState.NotSet)) (usd 500) 200 100000 120000.

(** The reserve balance is 50 where 100 is needed. *)
Definition shortBalance : Env :=
  answers (Ok (Some OrderState.NotSet)) (usd 500) 50 100000 120000.

(** The final estimate, 140000, is above the cap of 125000. *)
Definition gasBlowout : Env :=
  answers (Ok (Some OrderState.NotSet)) (usd 500) 200 100000 140000.

(** The first call to the take chain is rejected. *)
Definition rpcDown : Env :=
  answers (Throw Rejected) (usd 500) 200 100000 120000.

(** A processor on Polygon after the feed delivered [params]. *)
Definition delivered (params : IncomingOrderContext) (s : Processor) : Processor :=
  snd (process params s).

Definition settled (env : Env) (s : Processor) : Processor :=
  snd (tryProcess_resume env s).

Definition orderA_finalized := incoming "A" OrderInfoStatus.Created Finalized ranges 0.
Definition orderB_finalized := incoming "B" OrderInfoStatus.Created Finalized ranges 0.
Definition orderC_archival := incoming "C" OrderInfoStatus.ArchivalCreated Finalized ranges 0.
Definition orderC_archivalFulfilled :=
  incoming "C" OrderInfoStatus.ArchivalFulfilled Finalized ranges 0.

(** "A" announced with 12 confirmations, under [ranges]. *)
Definition orderA_confirmed12 :=
  incoming "A" OrderInfoStatus.Created (Confirmed 12) ranges 0.

(** "A" announced with 5 confirmations, under the range that asks for none. *)
Definition orderA_zeroRange :=
  incoming "A" OrderInfoStatus.Created (Confirmed 5) [zeroRange] 0.

(** "A" is being processed. *)
Definition processingA : Processor := delivered orderA_finalized (initial Polygon).

(** "A" is being processed; "B" (created) and "C" (archival) wait. *)
Definition processingA_waitingBC : Processor :=
  delivered orderC_archival (delivered orderB_finalized processingA).

(** "A" is being processed and has been delivered a second time. *)
Definition processingA_redelivered : Processor :=
  delivered orderA_finalized processingA.

(** The order is worth exactly 1000 USD, the upper bound of the first of
    [ranges]. *)
Definition worth1000 : Env :=
  answers (Ok (Some OrderState.NotSet)) (usd 1000) 200 100000 120000.

Definition processingA_confirmed12 : Processor :=
  delivered orderA_confirmed12 (initial Polygon).

Definition processingA_zeroRange : Processor :=
  delivered orderA_zeroRange (initial Polygon).

Definition orderA_fulfilled := incoming "A" OrderInfoStatus.Fulfilled Finalized ranges 0.

(** "A" went to the mempool for lack of balance; the slot is free. *)
Definition mempooledA : Processor := settled shortBalance processingA.

(** "A" is in the mempool and "B" is being processed. *)
Definition processingB_mempooledA : Processor :=
  delivered orderB_finalized mempooledA.

(** An executor with Ethereum, without filters, and Polygon, disabled: its
    [dstFilters] are those [init] builds with a [disableFulfill] that answers
    [false]. *)
Definition deny : ExecutorOrders.OrderFilter := fun _ => Ok false.

Definition disabledPolygon : ExecutorOrders.Chains := fun chain =>
  match chain with
  | Ethereum =>
      Some {| ExecutorOrders.srcFilters := []; ExecutorOrders.dstFilters := [] |}
  | Polygon =>
      Some {| ExecutorOrders.srcFilters := [];
              ExecutorOrders.dstFilters :=
                ExecutorOrders.initDstFilters None true deny None |}
  | _ => None
  end.

(** [orderData] (Ethereum to Polygon) as the feed sends it, with a status. *)
Definition eventA (st : OrderInfoStatus.t) : ExecutorOrders.NextOrderInfo :=
  {| ExecutorOrders.next_orderId := "A";
     ExecutorOrders.next_status := st;
     ExecutorOrders.next_order := Some orderData;
     ExecutorOrders.next_finalization_info := Finalized |}.

(** [env] with other answers of [calculateExpectedTakeAmount],
    [sendTransaction] and [waitIsOrderFulfilled]. *)
Definition withOutcome (env : Env) (expected : Res ExpectedTakeAmount)
    (sent waited : Res unit) : Env :=
  {| bucketFound := bucketFound env;
     getTakeOrderStatus := getTakeOrderStatus env;
     getGiveOrderStatus := getGiveOrderStatus env;
     usdWorth := usdWorth env;
     pickReserveToken := pickReserveToken env;
     reserveTokenDecimals := reserveTokenDecimals env;
     getBalance := getBalance env;
     preliminaryFulfillTx := preliminaryFulfillTx env;
     getGasPrice := getGasPrice env;
     preliminaryEstimateGas := preliminaryEstimateGas env;
     calculateExpectedTakeAmount := expected;
     finalFulfillTx := finalFulfillTx env;
     finalEstimateGas := finalEstimateGas env;
     sendTransaction := sent;
     waitIsOrderFulfilled := waited |}.

Definition profitable : ExpectedTakeAmount :=
  {| reserveDstToken := "USDC"; requiredReserveDstAmount := 100;
     isProfitable := true; reserveToTakeSlippageBps := Some 10 |}.

Definition notProfitable : ExpectedTakeAmount :=
  {| reserveDstToken := "USDC"; requiredReserveDstAmount := 100;
     isProfitable := false; reserveToTakeSlippageBps := Some 10 |}.

(** The evaluator finds the order unprofitable. *)
Definition unprofitable : Env := withOutcome allGood (Ok notProfitable) (Ok tt) (Ok tt).

(** The broadcast fails. *)
Definition broadcastFails : Env :=
  withOutcome allGood (Ok profitable) (Throw Rejected) (Ok tt).

(** The broadcast succeeds and the wait for the fulfilment fails. *)
Definition waitFails : Env :=
  withOutcome allGood (Ok profitable) (Ok tt) (Throw Rejected).

(** The transaction of [allGood], with the caps of its estimates. *)
Definition cappedTx : Tx :=
  {| tx_payload := "fulfill"; gas := Some 125000; cappedGasPrice := Some 39 |}.

Definition orderA_revoked := incoming "A" OrderInfoStatus.Created Revoked ranges 0.

(** [env] with other answers of the two calls of [estimateGas]. *)
Definition withEstimates (env : Env) (preliminary final : Res Z) : Env :=
  {| bucketFound := bucketFound env;
     getTakeOrderStatus := getTakeOrderStatus env;
     getGiveOrderStatus := getGiveOrderStatus env;
     usdWorth := usdWorth env;
     pickReserveToken := pickReserveToken env;
     reserveTokenDecimals := reserveTokenDecimals env;
     getBalance := getBalance env;
     preliminaryFulfillTx := preliminaryFulfillTx env;
     getGasPrice := getGasPrice env;
     preliminaryEstimateGas := preliminary;
     calculateExpectedTakeAmount := calculateExpectedTakeAmount env;
     finalFulfillTx := finalFulfillTx env;
     finalEstimateGas := final;
     sendTransaction := sendTransaction env;
     waitIsOrderFulfilled := waitIsOrderFulfilled env |}.

(** The preliminary estimate is rejected. *)
Definition preEstimateFails : Env := withEstimates allGood (Throw Rejected) (Ok 120000).

(** The final estimate is rejected. *)
Definition finalEstimateFails : Env := withEstimates allGood (Ok 100000) (Throw Rejected).

End Scenarios.

(** * Properties *)

(** ** The executor *)

Section ExecutorProperties.
Import Executor Scenarios.

Lemma pow10_pos (k : Z) : 0 <= k -> 0 < 10 ^ k.
Proof. intros Hk. apply Z.pow_pos_nonneg; lia. Qed.

Lemma quot_mul_back (a d : Z) : 0 < d -> a `quot` d * d = a - a `rem` d.
Proof. intros Hd. pose proof (Z.quot_rem' a d). lia. Qed.

Lemma quot_mul_abs_le (a d : Z) : 0 < d -> Z.abs (a `quot` d * d) <= Z.abs a.
Proof.
  intros Hd. rewrite Z.abs_mul, (Z.abs_eq d) by lia.
  destruct (Z.le_gt_cases 0 a) as [Ha | Ha].
  - rewrite !Z.abs_eq; [| lia | apply Z.quot_pos; lia].
    rewrite Z.mul_comm. apply Z.mul_quot_le; lia.
  - rewrite <- (Z.abs_opp a), <- (Z.abs_opp (a `quot` d)).
    rewrite <- Z.quot_opp_l by lia.
    rewrite !Z.abs_eq; [| lia | apply Z.quot_pos; lia].
    rewrite Z.mul_comm. apply Z.mul_quot_le; lia.
Qed.

Lemma quot_mul_le (a d : Z) : 0 <= a -> 0 < d -> a `quot` d * d <= a.
Proof. intros Ha Hd. rewrite Z.mul_comm. apply Z.mul_quot_le; lia. Qed.

(** C10.  With the decimals of the two tokens known, [resyncDecimals]
    returns the amount itself when the decimals are equal, the amount
    divided by [10^(decimalsIn - decimalsOut)] with the quotient truncated
    when the input token has more decimals, and the amount multiplied by
    [10^(decimalsOut - decimalsIn)] otherwise.  Converting to fewer decimals
    and back gives the amount less the truncated remainder: its magnitude
    never grows, and a non-negative amount never grows. *)
Theorem resyncDecimals_cases
    (getDecimals : ChainId -> Address -> option Z)
    (chainIn : ChainId) (tokenIn : Address) (amountIn : Z)
    (chainOut : ChainId) (tokenOut : Address) (decimalsIn decimalsOut : Z) :
  getDecimals chainIn tokenIn = Some decimalsIn ->
  getDecimals chainOut tokenOut = Some decimalsOut ->
  (decimalsIn = decimalsOut ->
     resyncDecimals getDecimals chainIn tokenIn amountIn chainOut tokenOut
     = Some amountIn)
  /\ (decimalsOut < decimalsIn ->
     resyncDecimals getDecimals chainIn tokenIn amountIn chainOut tokenOut
     = Some (amountIn `quot` 10 ^ (decimalsIn - decimalsOut)))
  /\ (decimalsIn < decimalsOut ->
     resyncDecimals getDecimals chainIn tokenIn amountIn chainOut tokenOut
     = Some (amountIn * 10 ^ (decimalsOut - decimalsIn)))
  /\ (decimalsOut <= decimalsIn ->
     exists there back,
       resyncDecimals getDecimals chainIn tokenIn amountIn chainOut tokenOut
       = Some there
       /\ resyncDecimals getDecimals chainOut tokenOut there chainIn tokenIn
          = Some back
       /\ back = amountIn - amountIn `rem` 10 ^ (decimalsIn - decimalsOut)
       /\ Z.abs back <= Z.abs amountIn
       /\ (0 <= amountIn -> back <= amountIn)).
Proof.
  intros Hin Hout.
  assert (Hsame : decimalsIn = decimalsOut ->
    resyncDecimals getDecimals chainIn tokenIn amountIn chainOut tokenOut
    = Some amountIn).
  { intros ->. unfold resyncDecimals. rewrite Hin, Hout. simpl.
    by rewrite Z.eqb_refl. }
  assert (Hdown : decimalsOut < decimalsIn ->
    resyncDecimals getDecimals chainIn tokenIn amountIn chainOut tokenOut
    = Some (amountIn `quot` 10 ^ (decimalsIn - decimalsOut))).
  { intros Hlt. unfold resyncDecimals. rewrite Hin, Hout. simpl.
    destruct (Z.eqb_spec decimalsIn decimalsOut); [lia |].
    destruct (Z.ltb_spec 0 (decimalsIn - decimalsOut)); [done | lia]. }
  assert (Hup : forall a, decimalsOut < decimalsIn ->
    resyncDecimals getDecimals chainOut tokenOut a chainIn tokenIn
    = Some (a * 10 ^ (decimalsIn - decimalsOut))).
  { intros a Hlt. unfold resyncDecimals. rewrite Hin, Hout. simpl.
    destruct (Z.eqb_spec decimalsOut decimalsIn); [lia |].
    destruct (Z.ltb_spec 0 (decimalsOut - decimalsIn)); [lia |].
    by replace (- (decimalsOut - decimalsIn)) with (decimalsIn - decimalsOut)
      by lia. }
  split; [exact Hsame |]. split; [exact Hdown |]. split.
  - intros Hlt. unfold resyncDecimals. rewrite Hin, Hout. simpl.
    destruct (Z.eqb_spec decimalsIn decimalsOut); [lia |].
    destruct (Z.ltb_spec 0 (decimalsIn - decimalsOut)); [lia |].
    by replace (- (decimalsIn - decimalsOut)) with (decimalsOut - decimalsIn)
      by lia.
  - intros Hle. destruct (Z.eq_dec decimalsIn decimalsOut) as [-> | Hne].
    + exists amountIn, amountIn. rewrite Z.sub_diag. simpl (10 ^ 0).
      rewrite Z.rem_1_r.
      split; [by apply Hsame |].
      split.
      { unfold resyncDecimals. rewrite Hin, Hout. simpl. by rewrite Z.eqb_refl. }
      split; [lia |]. split; lia.
    + assert (Hlt : decimalsOut < decimalsIn) by lia.
      pose proof (pow10_pos (decimalsIn - decimalsOut) ltac:(lia)) as Hpos.
      eexists _, _. split; [by apply Hdown |].
      split; [by apply Hup |].
      split; [by apply quot_mul_back |].
      split; [by apply quot_mul_abs_le | intros; by apply quot_mul_le].
Qed.

Lemma resyncDecimals_cases_witness :
  sampleDecimals Ethereum "DAI" = Some 18
  /\ sampleDecimals Solana "USDC" = Some 6
  /\ resyncDecimals sampleDecimals Ethereum "DAI" 1234567890123456789 Solana "USDC"
     = Some 1234567
  /\ resyncDecimals sampleDecimals Solana "USDC" 1234567 Ethereum "DAI"
     = Some 1234567000000000000.
Proof.
  split; [reflexivity |]. split; [reflexivity |].
  pose proof (resyncDecimals_cases sampleDecimals Ethereum "DAI"
                1234567890123456789 Solana "USDC" 18 6 eq_refl eq_refl)
    as (_ & Hdown & _ & _).
  pose proof (resyncDecimals_cases sampleDecimals Solana "USDC"
                1234567 Ethereum "DAI" 6 18 eq_refl eq_refl)
    as (_ & _ & Hup & _).
  split.
  - rewrite Hdown by lia. reflexivity.
  - rewrite Hup by lia. reflexivity.
Defined.

Lemma mapRes_Throw {A B} (f : A -> Res B) (l : list A) :
  is_Throw (mapRes f l) = true <-> exists x, x ∈ l /\ is_Throw (f x) = true.
Proof.
  induction l as [| x l IH]; simpl.
  - split; [done | intros (x & Hx & _); by apply elem_of_nil in Hx].
  - destruct (f x) as [y | e] eqn:Hfx.
    + destruct (mapRes f l) as [ys | e] eqn:Hl; simpl in *.
      * split; [done |]. intros (z & Hz & Hfz).
        apply elem_of_cons in Hz as [-> | Hz]; [by rewrite Hfx in Hfz |].
        apply IH. eauto.
      * split; [| done]. intros _. destruct IH as [IH _].
        destruct (IH eq_refl) as (z & Hz & Hfz).
        exists z. split; [by apply elem_of_cons; right | done].
    + simpl. split; [| done]. intros _. exists x.
      split; [apply elem_of_cons; by left | by rewrite Hfx].
Qed.

Lemma mapRes_length {A B} (f : A -> Res B) (l : list A) (ys : list B) :
  mapRes f l = Ok ys -> length ys = length l.
Proof.
  revert ys. induction l as [| x l IH]; simpl; intros ys H.
  - by inversion H.
  - destruct (f x); [| done]. destruct (mapRes f l); [| done].
    inversion H; subst. simpl. f_equal. by apply IH.
Qed.

Lemma insertByUpperThreshold_length x l :
  length (insertByUpperThreshold x l) = S (length l).
Proof.
  induction l as [| y l IH]; simpl; [done |].
  destruct (Qle_bool _ _); simpl; [done | by rewrite IH].
Qed.

Lemma sortByUpperThreshold_length l : length (sortByUpperThreshold l) = length l.
Proof.
  induction l as [| x l IH]; simpl; [done |].
  by rewrite insertByUpperThreshold_length, IH.
Qed.

Lemma hard_cap_positive chain : 0 < BLOCK_CONFIRMATIONS_HARD_CAPS chain.
Proof. destruct chain; reflexivity. Qed.

(** When does the callback of [.map] throw: exactly on a configured count
    that is not below the cap. *)
Lemma toSrcConstraintRange_Throw chain cfg c :
  is_Throw (toSrcConstraintRange chain cfg c) = true
  <-> exists v, minBlockConfirmations c = Some v
                /\ BLOCK_CONFIRMATIONS_HARD_CAPS chain <= v.
Proof.
  unfold toSrcConstraintRange. pose proof (hard_cap_positive chain) as Hpos.
  destruct (Z.leb_spec (BLOCK_CONFIRMATIONS_HARD_CAPS chain)
              (or_zero (minBlockConfirmations c))) as [Hle | Hgt]; simpl.
  - split; [intros _ | done].
    destruct (minBlockConfirmations c) as [v |]; unfold or_zero in Hle;
      simpl in Hle; [eauto | lia].
  - split; [done |]. intros (v & Hv & Hle). rewrite Hv in Hgt.
    unfold or_zero in Hgt. simpl in Hgt. lia.
Qed.

(** C8.  [getSrcConstraintsPerOrderValue], which [init] runs for every
    configured chain, throws exactly when one of the chain's
    required-confirmations thresholds has a [minBlockConfirmations] greater
    than or equal to the chain's hard cap; when every configured count is
    strictly smaller (or is left out) it returns one range per threshold.
    The caps are 12 for Ethereum, 256 for Polygon and 32 for Solana. *)
Theorem hard_cap_admission (chain : SupportedChain.t) (cfg : ChainConstraints) :
  (is_Throw (getSrcConstraintsPerOrderValue chain cfg) = true
   <-> exists c v,
         c ∈ default [] (requiredConfirmationsThresholds cfg)
         /\ minBlockConfirmations c = Some v
         /\ BLOCK_CONFIRMATIONS_HARD_CAPS chain <= v)
  /\ (is_Throw (getSrcConstraintsPerOrderValue chain cfg) = false
      <-> exists ranges,
            getSrcConstraintsPerOrderValue chain cfg = Ok ranges
            /\ length ranges
               = length (default [] (requiredConfirmationsThresholds cfg)))
  /\ BLOCK_CONFIRMATIONS_HARD_CAPS SupportedChain.Ethereum = 12
  /\ BLOCK_CONFIRMATIONS_HARD_CAPS SupportedChain.Polygon = 256
  /\ BLOCK_CONFIRMATIONS_HARD_CAPS SupportedChain.Solana = 32.
Proof.
  split; [| split; [| done]].
  - unfold getSrcConstraintsPerOrderValue.
    set (l := default [] (requiredConfirmationsThresholds cfg)).
    pose proof (mapRes_Throw (toSrcConstraintRange chain cfg) l) as Hmap.
    destruct (mapRes _ l) as [ranges | e]; simpl in *.
    + split; [done |]. intros (c & v & Hc & Hv & Hle).
      apply Hmap. exists c. split; [done |].
      apply toSrcConstraintRange_Throw. eauto.
    + split; [| done]. intros _. destruct Hmap as [Hmap _].
      destruct (Hmap eq_refl) as (c & Hc & Hthrow).
      apply toSrcConstraintRange_Throw in Hthrow as (v & Hv & Hle). eauto.
  - unfold getSrcConstraintsPerOrderValue.
    set (l := default [] (requiredConfirmationsThresholds cfg)).
    pose proof (mapRes_length (toSrcConstraintRange chain cfg) l) as Hlen.
    destruct (mapRes _ l) as [ranges | e]; simpl.
    + split; [intros _ | done]. eexists. split; [done |].
      rewrite sortByUpperThreshold_length. by apply Hlen.
    + split; [done | intros (? & ? & _); done].
Qed.

End ExecutorProperties.

(** ** The swap-connector service *)

Section SwapConnectorProperties.
Import SwapConnectorImplementationService.

Lemma forEach_disableCallback (l : list ChainId) (connectors : Connectors) :
  fold_left disableCallback l connectors = connectors.
Proof. induction l as [| c l IH]; simpl; [done | exact IH]. Qed.

(** C9.  Whatever list of chains [setSupportedChains] is given and
    whatever the connector table holds, the call leaves the table as it
    was: no connector is removed or set to [null], and
    [getSupportedChains] returns the same chains after the call as before. *)
Theorem setSupportedChains_leaves_table (chains : list ChainId)
    (connectors : Connectors) :
  setSupportedChains chains connectors = connectors
  /\ (forall chainId,
        setSupportedChains chains connectors chainId = connectors chainId)
  /\ getSupportedChains (setSupportedChains chains connectors)
     = getSupportedChains connectors.
Proof.
  unfold setSupportedChains. rewrite forEach_disableCallback. done.
Qed.

End SwapConnectorProperties.

(** ** The order pipeline *)

Section PipelineProperties.
Import UniversalProcessor Scenarios.

(** *** Sets of order ids *)

Lemma elem_of_set_add (x y : string) (l : list string) :
  y ∈ set_add x l <-> y = x \/ y ∈ l.
Proof.
  unfold set_add. case_bool_decide as Hx.
  - split; [by right | intros [-> | H]; done].
  - rewrite elem_of_app, list_elem_of_singleton. tauto.
Qed.

Lemma NoDup_set_add (x : string) (l : list string) :
  NoDup l -> NoDup (set_add x l).
Proof.
  intros Hl. unfold set_add. case_bool_decide as Hx; [done |].
  apply NoDup_app. split; [done |]. split; [| apply NoDup_singleton].
  intros y Hy Hy'. apply list_elem_of_singleton in Hy'. by subst.
Qed.

Lemma elem_of_set_delete (x y : string) (l : list string) :
  y ∈ set_delete x l <-> y ≠ x /\ y ∈ l.
Proof. unfold set_delete. by rewrite list_elem_of_filter. Qed.

Lemma not_elem_of_set_delete (x : string) (l : list string) :
  x ∉ set_delete x l.
Proof. rewrite elem_of_set_delete. tauto. Qed.

Lemma NoDup_set_delete (x : string) (l : list string) :
  NoDup l -> NoDup (set_delete x l).
Proof. apply NoDup_filter. Qed.

Lemma set_delete_cons_eq (x : string) (l : list string) :
  set_delete x (x :: l) = set_delete x l.
Proof. unfold set_delete. rewrite filter_cons. by case_decide. Qed.

(** *** Rules for [preserves] *)

Section Preserves.
Context (P : Processor -> Prop).

Lemma preserves_mret {A} (a : A) : preserves P (mret a).
Proof. intros s Hs. exact Hs. Qed.

Lemma preserves_return {A} : preserves P (@return_ A).
Proof. intros s Hs. exact Hs. Qed.

Lemma preserves_throw {A} (e : Error) : preserves P (@throw A e).
Proof. intros s Hs. exact Hs. Qed.

Lemma preserves_await {A} (r : Res A) : preserves P (await r).
Proof. destruct r; [apply preserves_mret | apply preserves_throw]. Qed.

Lemma preserves_bind {A B} (m : M A) (k : A -> M B) :
  preserves P m -> (forall a, preserves P (k a)) -> preserves P (m ≫= k).
Proof.
  intros Hm Hk s Hs. specialize (Hm s Hs).
  unfold mbind, M_bind. destruct (m s) as [[a | | e] s']; simpl in *;
    [by apply Hk | done | done].
Qed.

Lemma preserves_when (b : bool) (m : M unit) :
  preserves P m -> preserves P (when b m).
Proof. destruct b; [done | intros _; apply preserves_mret]. Qed.

Lemma preserves_modify (f : Processor -> Processor) :
  (forall s, P s -> P (f s)) -> preserves P (modify f).
Proof. intros Hf s Hs. by apply Hf. Qed.
End Preserves.

(** Goes through a computation of [M] by its shape; what is left are the
    steps that change the processor. *)
Ltac preserves_steps :=
  repeat lazymatch goal with
  | |- preserves _ (_ ≫= _) => apply preserves_bind; [| intros ?]
  | |- preserves _ (when _ _) => apply preserves_when
  | |- preserves _ (await _) => apply preserves_await
  | |- preserves _ return_ => apply preserves_return
  | |- preserves _ (throw _) => apply preserves_throw
  | |- preserves _ (mret _) => apply preserves_mret
  | |- preserves _ (match ?x with _ => _ end) => destruct x
  | |- preserves _ (if ?b then _ else _) => destruct b
  | |- preserves _ _ => fail
  end.

(** The only marks [processOrder] leaves on the processor are those of
    [mempoolService.addOrder(params)], of
    [clearInternalQueues(orderInfo.orderId)], of [batchUnlocker.addOrder]
    and of [sendTransaction]: a property that each of them keeps is kept
    by [processOrder], whatever the collaborators answer. *)
Lemma processOrder_preserves (P : Processor -> Prop) (env : Env)
    (id : string) (lookup : option IncomingOrderContext) :
  (forall p delay, lookup = Some p -> preserves P (mempool_addOrder p delay)) ->
  (forall p, lookup = Some p ->
             preserves P (clearInternalQueues (orderId (orderInfo p)))) ->
  (forall p, lookup = Some p ->
             preserves P (batch_addOrder (orderId (orderInfo p)))) ->
  (forall f, preserves P (modify (set_sentTransactions f))) ->
  preserves P (processOrder env id lookup).
Proof.
  intros Hmem Hclear Hbatch Hsent.
  destruct lookup as [p |]; [| apply preserves_throw].
  specialize (Hclear p eq_refl). specialize (Hbatch p eq_refl).
  assert (Hadd : forall delay, preserves P (mempool_addOrder p delay))
    by (intros; by apply Hmem).
  assert (Hpre : preserves P (preEstimationStage env p)).
  { intros s Hs. unfold preEstimationStage.
    destruct (getEngineByChainId (takeChain s)); [| done].
    destruct (preliminaryFulfillTx env), (getGasPrice env),
      (preliminaryEstimateGas env); simpl; try done; by apply (Hadd None). }
  unfold processOrder, confirmationStage, fulfillStage, finalEstimationStage.
  preserves_steps; done.
Qed.

(** *** The invariant of the pipeline *)

Lemma initial_invariant (chain : ChainId) : pipeline_invariant (initial chain).
Proof.
  constructor; simpl; try done; try apply NoDup_nil_2.
  intros id [H | H]; by apply elem_of_nil in H.
Qed.

Lemma invariant_mempool_addOrder (p : IncomingOrderContext) (delay : option Z)
    (s : Processor) :
  orderId (orderInfo p) ≠ ""%string ->
  pipeline_invariant s ->
  pipeline_invariant (snd (mempool_addOrder p delay s)).
Proof.
  intros Hid [H1 H2 H3 H4 H5 H6 H7 H8]. constructor; simpl; try done.
  intros id e. rewrite lookup_insert. case_decide as Heq.
  - intros [= <-]. simpl. by subst.
  - apply H8.
Qed.

Lemma invariant_clearInternalQueues (id : string) (s : Processor) :
  pipeline_invariant s ->
  pipeline_invariant (snd (clearInternalQueues id s)).
Proof.
  intros [H1 H2 H3 H4 H5 H6 H7 H8]. constructor; simpl; try done.
  - intros Hl. destruct (H2 Hl) as [-> ->]. done.
  - by apply NoDup_set_delete.
  - by apply NoDup_set_delete.
  - intros id'. rewrite !elem_of_set_delete. intros Hin.
    assert (id' ≠ id) by tauto.
    rewrite lookup_delete_ne by done. apply H5. tauto.
  - intros id' p. rewrite lookup_delete_Some. intros [_ Hp]. by apply H6.
  - intros id' e. rewrite lookup_delete_Some. intros [_ He]. by apply H8.
Qed.

Lemma invariant_batchUnlocker (f : list BatchCall -> list BatchCall)
    (s : Processor) :
  pipeline_invariant s -> pipeline_invariant (set_batchUnlocker f s).
Proof. intros [H1 H2 H3 H4 H5 H6 H7 H8]. by constructor. Qed.

Lemma invariant_sentTransactions (f : list Tx -> list Tx) (s : Processor) :
  pipeline_invariant s -> pipeline_invariant (set_sentTransactions f s).
Proof. intros [H1 H2 H3 H4 H5 H6 H7 H8]. by constructor. Qed.

Lemma invariant_mempool_delete (id : string) (s : Processor) :
  pipeline_invariant s -> pipeline_invariant (set_mempoolService (delete id) s).
Proof.
  intros [H1 H2 H3 H4 H5 H6 H7 H8]. constructor; simpl; try done.
  intros id' e. rewrite lookup_delete_Some. intros [_ He]. by apply H8.
Qed.

(** [processOrder] keeps the invariant and leaves the lock and the awaited
    call alone. *)
Lemma invariant_processOrder (env : Env) (s : Processor) (id : string)
    (lookup : option IncomingOrderContext) :
  pipeline_invariant s ->
  inFlight s = Some (id, lookup) ->
  pipeline_invariant (snd (processOrder env id lookup s))
  /\ inFlight (snd (processOrder env id lookup s)) = Some (id, lookup)
  /\ isLocked (snd (processOrder env id lookup s)) = isLocked s.
Proof.
  intros Hinv Hfl.
  pose (P := fun s' => pipeline_invariant s'
                       /\ inFlight s' = Some (id, lookup)
                       /\ isLocked s' = isLocked s).
  apply (processOrder_preserves P env id lookup); [| | | | by unfold P].
  - intros p delay -> s' (Hs' & Hfl' & Hlk). split; [| done].
    apply invariant_mempool_addOrder; [| done].
    destruct (inv_inFlight _ Hs' _ _ Hfl') as (p' & [= <-] & Hid & Hne).
    by rewrite Hid.
  - intros p -> s' (Hs' & Hfl' & Hlk). split; [| done].
    by apply invariant_clearInternalQueues.
  - intros p -> s' (Hs' & Hfl' & Hlk). split; [| done].
    by apply invariant_batchUnlocker.
  - intros f s' (Hs' & Hfl' & Hlk). split; [| done].
    by apply invariant_sentTransactions.
Qed.

(** [pickNextOrder] when no queued id is the empty string: the head of the
    priority queue, or else the head of the secondary queue, taken out of
    both queues. *)
Lemma pickNextOrder_head (s : Processor) :
  (forall id, id ∈ priorityQueue s \/ id ∈ queue s -> id ≠ ""%string) ->
  pickNextOrder s =
    match head (priorityQueue s ++ queue s) with
    | Some id =>
        (Next (Some id),
         set_queue (set_delete id) (set_priorityQueue (set_delete id) s))
    | None => (Next None, s)
    end.
Proof.
  intros Hne. unfold pickNextOrder, first_value.
  destruct (priorityQueue s) as [| x pq] eqn:Hpq; simpl.
  - destruct (queue s) as [| y q] eqn:Hq; simpl; [done |].
    assert (y ≠ ""%string) as Hy by (apply Hne; right; apply list_elem_of_here).
    by rewrite bool_decide_eq_false_2.
  - assert (x ≠ ""%string) as Hx by (apply Hne; left; apply list_elem_of_here).
    rewrite bool_decide_eq_false_2 by done. simpl.
    by rewrite bool_decide_eq_false_2.
Qed.

Lemma invariant_queued_nonempty (s : Processor) :
  pipeline_invariant s ->
  forall id, id ∈ priorityQueue s \/ id ∈ queue s -> id ≠ ""%string.
Proof.
  intros Hinv id Hin. destruct (inv_queued _ Hinv id Hin) as [p Hp].
  by destruct (inv_incoming _ Hinv id p Hp).
Qed.

Lemma invariant_process (params : IncomingOrderContext) (s : Processor) :
  orderId (orderInfo params) ≠ ""%string ->
  pipeline_invariant s ->
  pipeline_invariant (snd (process params s)).
Proof.
  intros Hid Hinv. unfold process.
  assert (Hcreated :
    status (orderInfo params) = OrderInfoStatus.Created
    \/ status (orderInfo params) = OrderInfoStatus.ArchivalCreated ->
    pipeline_invariant
      (snd ((modify (set_incomingOrdersMap
                       (insert (orderId (orderInfo params)) params));;
             tryProcess (orderId (orderInfo params))) s))).
  { intros Hst. destruct Hinv as [H1 H2 H3 H4 H5 H6 H7 H8].
    unfold mbind, M_bind, modify, tryProcess. simpl.
    rewrite lookup_insert_eq. simpl.
    assert (Hin : forall id p,
      <[orderId (orderInfo params):=params]> (incomingOrdersMap s) !! id = Some p ->
      orderId (orderInfo p) = id /\ id ≠ ""%string).
    { intros id p. rewrite lookup_insert. case_decide as Heq.
      - intros [= <-]. by subst.
      - apply H6. }
    assert (Hq : forall id,
      id ∈ priorityQueue s \/ id ∈ queue s ->
      is_Some (<[orderId (orderInfo params):=params]> (incomingOrdersMap s) !! id)).
    { intros id Hin'. rewrite lookup_insert. case_decide; [done | by apply H5]. }
    destruct (isLocked s) eqn:Hlk.
    - destruct Hst as [-> | ->]; constructor; simpl; rewrite ?Hlk; try done.
      + by apply NoDup_set_add.
      + intros id. rewrite elem_of_set_add. intros [[-> | Hin'] | Hin'].
        * by rewrite lookup_insert_eq.
        * apply Hq. by left.
        * apply Hq. by right.
      + by apply NoDup_set_add.
      + intros id. rewrite elem_of_set_add. intros [Hin' | [-> | Hin']].
        * apply Hq. by left.
        * by rewrite lookup_insert_eq.
        * apply Hq. by right.
    - constructor; simpl; rewrite ?Hlk; try done.
      intros id lookup [= <- <-]. eauto. }
  destruct (status (orderInfo params)) eqn:Hst.
  - apply Hcreated. by left.
  - apply Hcreated. by right.
  - simpl. by apply invariant_batchUnlocker.
  - unfold mbind, M_bind.
    pose proof (invariant_clearInternalQueues (orderId (orderInfo params)) s Hinv)
      as Hc.
    destruct (clearInternalQueues _ s) as [[[] | | e] s']; simpl in *; try done.
    by apply invariant_batchUnlocker.
  - unfold mbind, M_bind.
    pose proof (invariant_clearInternalQueues (orderId (orderInfo params)) s Hinv)
      as Hc.
    by destruct (clearInternalQueues _ s) as [[[] | | e] s'].
  - done.
Qed.

Lemma invariant_tryProcess_resume (env : Env) (s : Processor) :
  pipeline_invariant s ->
  pipeline_invariant (snd (tryProcess_resume env s)).
Proof.
  intros Hinv. unfold tryProcess_resume.
  destruct (inFlight s) as [[id lookup] |] eqn:Hfl; [| done].
  destruct (invariant_processOrder env s id lookup Hinv Hfl) as (Hinv1 & _ & _).
  set (s1 := match processOrder env id lookup s with
             | (Raise e, s1) => s1
             | (_, s1) => s1
             end).
  assert (Hs1 : s1 = snd (processOrder env id lookup s)).
  { unfold s1. by destruct (processOrder env id lookup s) as [[[] | | e] s']. }
  rewrite <- Hs1 in Hinv1. clearbody s1.
  rewrite pickNextOrder_head by (simpl; by apply invariant_queued_nonempty).
  destruct Hinv1 as [H1 H2 H3 H4 H5 H6 H7 H8]. simpl.
  destruct (head (priorityQueue s1 ++ queue s1)) as [next |] eqn:Hhead.
  - assert (Hnext : next ∈ priorityQueue s1 \/ next ∈ queue s1).
    { apply elem_of_app. apply head_Some_elem_of. exact Hhead. }
    destruct (H5 next Hnext) as [p Hp].
    unfold tryProcess. simpl. rewrite Hp. simpl.
    destruct (H6 next p Hp) as [Hpid Hne].
    constructor; simpl; try done.
    + by apply NoDup_set_delete.
    + by apply NoDup_set_delete.
    + intros id'. rewrite !elem_of_set_delete. intros Hin. apply H5. tauto.
    + intros id' lookup' [= <- <-]. eauto.
  - apply head_None in Hhead. apply app_eq_nil in Hhead as [Hp Hq].
    constructor; simpl; done.
Qed.

Lemma invariant_mempool_fire (forget : bool) (id : string) (s : Processor) :
  pipeline_invariant s ->
  pipeline_invariant (snd (mempool_fire forget id s)).
Proof.
  intros Hinv. unfold mempool_fire.
  destruct (mempoolService s !! id) as [e |] eqn:He; [| done].
  apply invariant_process.
  - simpl. destruct (inv_mempool _ Hinv id e He) as [Hid Hne]. by rewrite Hid.
  - destruct forget; [by apply invariant_mempool_delete | done].
Qed.

Lemma invariant_step (s s' : Processor) :
  step s s' -> pipeline_invariant s -> pipeline_invariant s'.
Proof.
  intros [params s0 Hid | env s0 | forget id s0] Hinv.
  - by apply invariant_process.
  - by apply invariant_tryProcess_resume.
  - by apply invariant_mempool_fire.
Qed.

Lemma reachable_invariant (chain : ChainId) (s : Processor) :
  reachable chain s -> pipeline_invariant s.
Proof.
  unfold reachable. revert s.
  apply (rtc_ind_r pipeline_invariant (initial chain)).
  - apply initial_invariant.
  - intros s s' _ Hstep Hinv. by apply (invariant_step s s').
Qed.

(** *** Running [processOrder] *)

Lemma processOrder_after_checks (env : Env) (id : string)
    (params : IncomingOrderContext) (s : Processor) :
  passesOnChainChecks env ->
  processOrder env id (Some params) s
  = (confirmationStage env params ≫= fulfillStage env params) s.
Proof.
  intros (Hbucket & Htake & Hgive). unfold processOrder.
  rewrite Hbucket, Hgive.
  destruct Htake as [-> | ->]; reflexivity.
Qed.

Lemma find_first {A} (p : A -> bool) (l : list A) (x : A) :
  find p l = Some x
  <-> exists before after,
        l = before ++ x :: after
        /\ Forall (fun y => p y = false) before
        /\ p x = true.
Proof.
  unfold find. induction l as [| y l IH]; simpl.
  - split; [done |]. intros (before & after & Heq & _).
    by destruct before.
  - destruct (p y) eqn:Hy.
    + split.
      * intros [= ->]. exists [], l. by repeat split.
      * intros ([| z before] & after & Heq & Hall & Hx).
        -- by injection Heq as -> _.
        -- injection Heq as <- _. apply Forall_cons in Hall as [Hz _].
           congruence.
    + rewrite IH. split.
      * intros (before & after & -> & Hall & Hx).
        exists (y :: before), after. split; [done |].
        split; [by apply Forall_cons | done].
      * intros ([| z before] & after & Heq & Hall & Hx).
        -- injection Heq as <- _. congruence.
        -- injection Heq as <- ->. apply Forall_cons in Hall as [_ Hall].
           by exists before, after.
Qed.

Lemma le_refl_of_lt (a b : jsnum) : lt a b = true -> le b b = true.
Proof.
  destruct a, b; simpl; try done; intros _; apply Qle_bool_iff, Qle_refl.
Qed.

(** C1 (amended).  For a created order announced with [n] confirmations
    that passes the on-chain checks, [processOrder] looks for the first
    range of the give chain with [usdWorthFrom < usdWorth <= usdWorthTo]; a
    worth equal to the upper bound of a range is inside that range.  The
    order is rejected ([processOrder] returns and leaves the processor as it
    was: nothing is sent, nothing goes to the mempool) when no range matches,
    when the matched range has [minBlockConfirmations = 0], and when [n] is
    below the matched range's [minBlockConfirmations]; otherwise processing
    goes on from the balance check with [allowPlaceToMempool = false]. *)
Theorem confirmation_policy (env : Env) (id : string)
    (params : IncomingOrderContext) (s : Processor) (n : Z) (w : jsnum)
    (giveChain : SupportedChainConfig) :
  passesOnChainChecks env ->
  status (orderInfo params) = OrderInfoStatus.Created ->
  finalization_info (orderInfo params) = Confirmed n ->
  usdWorth env = Ok w ->
  config_chains (context params) (chainId (give (order (orderInfo params))))
  = Some giveChain ->
  (forall range,
     find (inRange w) (usdAmountConfirmations giveChain) = Some range
     <-> exists before after,
           usdAmountConfirmations giveChain = before ++ range :: after
           /\ Forall (fun r => inRange w r = false) before
           /\ lt (usdWorthFrom range) w = true
           /\ le w (usdWorthTo range) = true)
  /\ (forall range,
        lt (usdWorthFrom range) (usdWorthTo range) = true ->
        inRange (usdWorthTo range) range = true)
  /\ (find (inRange w) (usdAmountConfirmations giveChain) = None ->
      processOrder env id (Some params) s = (Return, s))
  /\ (forall range,
        find (inRange w) (usdAmountConfirmations giveChain) = Some range ->
        (minBlockConfirmations range = 0 \/ n < minBlockConfirmations range ->
         processOrder env id (Some params) s = (Return, s))
        /\ (minBlockConfirmations range ≠ 0 ->
            minBlockConfirmations range <= n ->
            processOrder env id (Some params) s
            = fulfillStage env params false s)).
Proof.
  intros Hchecks Hst Hfi Hw Hcfg.
  assert (Hstage : forall k : bool -> M unit,
    (confirmationStage env params ≫= k) s
    = match find (inRange w) (usdAmountConfirmations giveChain) with
      | Some range =>
          if truthy (Some (minBlockConfirmations range)) then
            if n <? minBlockConfirmations range then (Return, s)
            else k false s
          else (Return, s)
      | None => (Return, s)
      end).
  { intros k. unfold confirmationStage. rewrite Hst, Hfi, Hw, Hcfg.
    unfold mbind, M_bind. simpl.
    destruct (find _ _) as [range |]; [| done].
    destruct (minBlockConfirmations range =? 0); [done |]. simpl.
    by destruct (n <? minBlockConfirmations range). }
  split; [| split; [| split]].
  - intros range. rewrite find_first. unfold inRange.
    setoid_rewrite andb_true_iff. split.
    + intros (before & after & ? & ? & ? & ?). by exists before, after.
    + intros (before & after & ? & ? & ? & ?). by exists before, after.
  - intros range Hlt. unfold inRange. rewrite Hlt. simpl.
    by apply (le_refl_of_lt (usdWorthFrom range)).
  - intros Hnone. rewrite processOrder_after_checks, Hstage by done.
    by rewrite Hnone.
  - intros range Hsome. rewrite processOrder_after_checks, Hstage by done.
    rewrite Hsome. unfold truthy. split.
    + intros [-> | Hlt]; [done |].
      destruct (_ =? 0); [done |]. simpl.
      by destruct (Z.ltb_spec n (minBlockConfirmations range)); [| lia].
    + intros Hne Hle.
      destruct (Z.eqb_spec (minBlockConfirmations range) 0); [done |]. simpl.
      by destruct (Z.ltb_spec n (minBlockConfirmations range)); [lia |].
Qed.

Lemma allGood_passesOnChainChecks (takeStatus : option OrderState.t)
    (worth : jsnum) (balance preliminaryGas finalGas : Z) :
  takeStatus = None \/ takeStatus = Some OrderState.NotSet ->
  passesOnChainChecks (answers (Ok takeStatus) worth balance preliminaryGas finalGas).
Proof.
  intros H. split; [done |]. split; [| done].
  simpl. destruct H as [-> | ->]; [by left | by right].
Qed.

(** The boundary case of the specification: an order worth exactly 1000 USD
    announced with 12 confirmations is accepted under the range (0, 1000]. *)
Lemma confirmation_policy_witness :
  passesOnChainChecks worth1000
  /\ find (inRange (usd 1000)) ranges
     = Some {| usdWorthFrom := usd 0; usdWorthTo := usd 1000;
               minBlockConfirmations := 12 |}
  /\ processOrder worth1000 "A" (Some orderA_confirmed12) processingA_confirmed12
     = fulfillStage worth1000 orderA_confirmed12 false processingA_confirmed12.
Proof.
  assert (Hchecks : passesOnChainChecks worth1000)
    by (apply allGood_passesOnChainChecks; by right).
  split; [exact Hchecks |]. split; [reflexivity |].
  destruct (confirmation_policy worth1000 "A" orderA_confirmed12
              processingA_confirmed12 12 (usd 1000)
              {| usdAmountConfirmations := ranges |}
              Hchecks eq_refl eq_refl eq_refl eq_refl)
    as (_ & _ & _ & Hrange).
  destruct (Hrange {| usdWorthFrom := usd 0; usdWorthTo := usd 1000;
                      minBlockConfirmations := 12 |} eq_refl) as [_ Haccept].
  apply Haccept; [done | simpl; lia].
Defined.

(** C1, as stated, fails: under the single range (0, 1000] with
    [minBlockConfirmations = 0], an order worth 500 USD announced with 5
    confirmations is matched by the range and is not accepted:
    [processOrder] returns and leaves the processor as it was, where going on
    with the processing would have sent the fulfill transaction. *)
Lemma zero_confirmations_range_rejects :
  find (inRange (usd 500)) [zeroRange] = Some zeroRange
  /\ minBlockConfirmations zeroRange = 0
  /\ 0 <= 5
  /\ processOrder allGood "A" (Some orderA_zeroRange) processingA_zeroRange
     = (Return, processingA_zeroRange)
  /\ sentTransactions
       (snd (fulfillStage allGood orderA_zeroRange false processingA_zeroRange))
     = [ {| tx_payload := "fulfill"; gas := Some 125000;
            cappedGasPrice := Some 39 |} ].
Proof. repeat split; vm_compute; congruence. Qed.

(** *** Terminal events *)

(** C3 (amended).  [process] on a [Fulfilled] or a [Cancelled] event takes
    the order id out of the priority queue, the secondary queue, the
    incoming-orders map and the mempool scheduler; on [Fulfilled] the order is
    then handed to the batch unlocker.  On [ArchivalFulfilled] the order is
    handed to the batch unlocker and nothing else changes: the queues, the map
    and the mempool scheduler are as before. *)
Theorem terminal_events (params : IncomingOrderContext) (s : Processor) :
  (status (orderInfo params) = OrderInfoStatus.Fulfilled
   \/ status (orderInfo params) = OrderInfoStatus.Cancelled ->
     (orderId (orderInfo params) ∉ priorityQueue (snd (process params s)))
     /\ (orderId (orderInfo params) ∉ queue (snd (process params s)))
     /\ (incomingOrdersMap (snd (process params s)))
          !! (orderId (orderInfo params)) = None
     /\ (mempoolService (snd (process params s)))
          !! (orderId (orderInfo params)) = None)
  /\ (status (orderInfo params) = OrderInfoStatus.Fulfilled ->
      batchUnlocker (snd (process params s))
      = batchUnlocker s ++ [UnlockOrder (orderId (orderInfo params))])
  /\ (status (orderInfo params) = OrderInfoStatus.Cancelled ->
      batchUnlocker (snd (process params s)) = batchUnlocker s)
  /\ (status (orderInfo params) = OrderInfoStatus.ArchivalFulfilled ->
      snd (process params s)
      = set_batchUnlocker
          (fun calls => calls ++ [UnlockOrder (orderId (orderInfo params))]) s).
Proof.
  unfold process. repeat split.
  - destruct H as [-> | ->]; simpl; apply not_elem_of_set_delete.
  - destruct H as [-> | ->]; simpl; apply not_elem_of_set_delete.
  - destruct H as [-> | ->]; simpl; apply lookup_delete_eq.
  - destruct H as [-> | ->]; simpl; apply lookup_delete_eq.
  - intros ->. reflexivity.
  - intros ->. reflexivity.
  - intros ->. reflexivity.
Qed.

Lemma terminal_events_witness :
  inPriorityQueue "A" processingA_redelivered = true
  /\ inIncomingOrdersMap "A" processingA_redelivered = true
  /\ ("A" ∉ priorityQueue (delivered orderA_fulfilled processingA_redelivered))
  /\ (incomingOrdersMap (delivered orderA_fulfilled processingA_redelivered))
       !! "A" = None
  /\ batchUnlocker (delivered orderA_fulfilled processingA_redelivered)
     = [UnlockOrder "A"].
Proof.
  destruct (terminal_events orderA_fulfilled processingA_redelivered)
    as (Hclear & Hbatch & _ & _).
  destruct (Hclear (or_introl eq_refl)) as (Hp & _ & Hmap & _).
  split; [reflexivity |]. split; [reflexivity |].
  split; [exact Hp |]. split; [exact Hmap |]. exact (Hbatch eq_refl).
Defined.

(** C3, as stated, fails for [ArchivalFulfilled]: with "A" being processed
    and the archival order "C" waiting in the secondary queue, an
    [ArchivalFulfilled] event for "C" hands "C" to the batch unlocker and
    leaves it in the secondary queue and in the incoming-orders map. *)
Lemma archival_fulfilled_keeps_queues :
  reachable Polygon processingA_waitingBC
  /\ status (orderInfo orderC_archivalFulfilled) = OrderInfoStatus.ArchivalFulfilled
  /\ inSecondaryQueue "C" (delivered orderC_archivalFulfilled processingA_waitingBC)
     = true
  /\ inIncomingOrdersMap "C" (delivered orderC_archivalFulfilled processingA_waitingBC)
     = true
  /\ batchUnlocker (delivered orderC_archivalFulfilled processingA_waitingBC)
     = [UnlockOrder "C"].
Proof.
  split; [| repeat split; vm_compute; congruence].
  unfold processingA_waitingBC, processingA, delivered.
  eapply rtc_r; [eapply rtc_r; [eapply rtc_r; [apply rtc_refl |] |] |];
    by apply step_process.
Qed.

(** *** Queue disjointness *)

Lemma reachable_processingA_redelivered :
  reachable Polygon processingA_redelivered.
Proof.
  unfold processingA_redelivered, processingA, delivered.
  eapply rtc_r; [eapply rtc_r; [apply rtc_refl |] |]; by apply step_process.
Qed.

(** C2 (amended).  In every reachable state of a pipeline, an order id
    occurs at most once in the priority queue and at most once in the
    secondary queue, both queues are empty whenever the in-flight slot is
    free, and every queued id has its context in the incoming-orders map. *)
Theorem queues_of_reachable_states (chain : ChainId) (s : Processor) :
  reachable chain s ->
  NoDup (priorityQueue s)
  /\ NoDup (queue s)
  /\ (inFlight s = None -> priorityQueue s = [] /\ queue s = [])
  /\ (forall id,
        id ∈ priorityQueue s \/ id ∈ queue s ->
        is_Some (incomingOrdersMap s !! id)).
Proof.
  intros Hr. pose proof (reachable_invariant chain s Hr) as Hinv.
  split; [apply Hinv |]. split; [apply Hinv |]. split; [| apply Hinv].
  intros Hfree. apply (inv_idle _ Hinv).
  destruct (isLocked s) eqn:Hlk; [| done].
  apply (inv_lock _ Hinv) in Hlk. rewrite Hfree in Hlk. by destruct Hlk.
Qed.

Lemma queues_of_reachable_states_witness :
  reachable Polygon processingA_redelivered
  /\ NoDup (priorityQueue processingA_redelivered)
  /\ priorityQueue processingA_redelivered = ["A"%string].
Proof.
  split; [exact reachable_processingA_redelivered |].
  split; [| reflexivity].
  exact (proj1 (queues_of_reachable_states Polygon processingA_redelivered
                  reachable_processingA_redelivered)).
Defined.

(** C2, as stated, fails: a created order delivered a second time while it
    is being processed is in the in-flight slot and in the priority queue. *)
Lemma redelivered_order_in_two_places :
  reachable Polygon processingA_redelivered
  /\ isInFlight "A" processingA_redelivered = true
  /\ inPriorityQueue "A" processingA_redelivered = true
  /\ places "A" processingA_redelivered = 2%nat
  /\ ~ queue_disjointness.
Proof.
  split; [exact reachable_processingA_redelivered |].
  do 3 (split; [reflexivity |]).
  intros Hdisjoint.
  pose proof (Hdisjoint Polygon processingA_redelivered "A"%string
                reachable_processingA_redelivered) as Hle.
  vm_compute in Hle. lia.
Qed.

(** [process] on a created order does not touch the mempool scheduler: the
    queues are not cleared first, although the comment on line 760 says the
    order must be removed from all queues. *)
Lemma created_event_leaves_mempool (params : IncomingOrderContext)
    (s : Processor) :
  status (orderInfo params) = OrderInfoStatus.Created
  \/ status (orderInfo params) = OrderInfoStatus.ArchivalCreated ->
  mempoolService (snd (process params s)) = mempoolService s.
Proof.
  intros Hst. unfold process.
  assert (H : mempoolService
                (snd ((modify (set_incomingOrdersMap
                                 (insert (orderId (orderInfo params)) params));;
                       tryProcess (orderId (orderInfo params))) s))
              = mempoolService s).
  { unfold mbind, M_bind, modify, tryProcess. simpl.
    rewrite lookup_insert_eq.
    destruct (isLocked s); [| done].
    by destruct (status (orderInfo params)). }
  by destruct Hst as [-> | ->].
Qed.

(** With "A" scheduled in the mempool and "B" being processed, a [Created]
    event for "A" leaves "A" in the mempool scheduler and in the priority
    queue at once. *)
Lemma created_event_for_mempooled_order :
  inMempool "A" processingB_mempooledA = true
  /\ isInFlight "B" processingB_mempooledA = true
  /\ inMempool "A" (delivered orderA_finalized processingB_mempooledA) = true
  /\ inPriorityQueue "A" (delivered orderA_finalized processingB_mempooledA) = true.
Proof. repeat split. Qed.

(** *** The balance check *)

(** C4: the code at the failing input.  "A" is announced with 12
    confirmations, which the range (0, 1000] accepts, so
    [allowPlaceToMempool] is [false]; the reserve balance is 50 where 100 is
    needed.  [processOrder] puts "A" into the mempool scheduler. *)
Theorem confirmed_order_mempooled_on_balance_shortfall :
  confirmationStage shortBalance orderA_confirmed12 processingA_confirmed12
  = (Next false, processingA_confirmed12)
  /\ inMempool "A" processingA_confirmed12 = false
  /\ inMempool "A" (processOrder_settled shortBalance processingA_confirmed12)
     = true
  /\ inMempool "A" (settled shortBalance processingA_confirmed12) = true.
Proof. repeat split. Qed.

(** The balance check does not look at [allowPlaceToMempool]: with either
    value, a balance below the rough amount sends the order to the mempool. *)
Lemma balance_shortfall_goes_to_mempool (env : Env)
    (params : IncomingOrderContext) (allowPlaceToMempool : bool) (s : Processor)
    (picked : PickedBucket) (decimals : Z * Z) (balance : Z) :
  pickReserveToken env = Ok picked ->
  reserveTokenDecimals env = Ok decimals ->
  getBalance env = Ok balance ->
  balance < roughReserveDstAmount (amount (give (order (orderInfo params))))
              (fst decimals) (snd decimals) ->
  fulfillStage env params allowPlaceToMempool s
  = (Return,
     set_mempoolService
       (insert (orderId (orderInfo params))
               {| entry_params := params; entry_delay := None |}) s).
Proof.
  intros Hpick Hdec Hbal Hlt. unfold fulfillStage.
  rewrite Hpick, Hdec, Hbal. unfold mbind, M_bind. simpl.
  by destruct (Z.ltb_spec balance
                 (roughReserveDstAmount (amount (give (order (orderInfo params))))
                    (fst decimals) (snd decimals))); [| lia].
Qed.

(** *** The in-flight slot and the two queues *)

Lemma reachable_processingA_waitingBC : reachable Polygon processingA_waitingBC.
Proof.
  unfold processingA_waitingBC, processingA, delivered.
  eapply rtc_r; [eapply rtc_r; [eapply rtc_r; [apply rtc_refl |] |] |];
    by apply step_process.
Qed.

(** What [tryProcess] does once the awaited [processOrder] has settled, in
    a state that satisfies the invariant: the lock is released; if an id
    waits, the first of the priority queue, or else of the secondary queue,
    leaves both queues and the lock is taken for it. *)
Lemma tryProcess_resume_unfold (env : Env) (s : Processor) (id : string)
    (lookup : option IncomingOrderContext) :
  pipeline_invariant s ->
  inFlight s = Some (id, lookup) ->
  tryProcess_resume env s
  = match head (priorityQueue (processOrder_settled env s)
                ++ queue (processOrder_settled env s)) with
    | Some next =>
        (Next tt,
         set_lock true
           (Some (next, incomingOrdersMap (processOrder_settled env s) !! next))
           (set_queue (set_delete next)
              (set_priorityQueue (set_delete next)
                 (set_lock false None (processOrder_settled env s)))))
    | None => (Return, set_lock false None (processOrder_settled env s))
    end.
Proof.
  intros Hinv Hfl. unfold tryProcess_resume, processOrder_settled. rewrite Hfl.
  destruct (invariant_processOrder env s id lookup Hinv Hfl) as (Hinv1 & _ & _).
  set (s1 := match processOrder env id lookup s with
             | (Raise e, s1) => s1
             | (_, s1) => s1
             end).
  assert (Hs1 : s1 = snd (processOrder env id lookup s)).
  { unfold s1. by destruct (processOrder env id lookup s) as [[[] | | e] s']. }
  rewrite <- Hs1 in *. clearbody s1.
  rewrite pickNextOrder_head by (simpl; by apply invariant_queued_nonempty).
  simpl. destruct (head (priorityQueue s1 ++ queue s1)) as [next |] eqn:Hhead;
    [| done].
  assert (Hnext : next ∈ priorityQueue s1 \/ next ∈ queue s1).
  { apply elem_of_app. apply head_Some_elem_of. exact Hhead. }
  destruct (inv_queued _ Hinv1 next Hnext) as [p Hp].
  unfold tryProcess. simpl. by rewrite Hp.
Qed.

Lemma NoDup_set_delete_head (x : string) (l : list string) :
  NoDup (x :: l) -> set_delete x (x :: l) = l.
Proof.
  intros Hnd. apply NoDup_cons in Hnd as [Hx _].
  rewrite set_delete_cons_eq. unfold set_delete.
  induction l as [| y l IH]; [done |].
  apply not_elem_of_cons in Hx as [Hne Hx].
  rewrite filter_cons. case_decide; [| done]. by rewrite IH.
Qed.

(** C5.  In every reachable state: while the in-flight slot is held, a
    delivered [Created] order is added to the priority queue and a delivered
    [ArchivalCreated] order to the secondary queue (after its context is
    recorded), and nothing starts.  When the awaited [processOrder] settles
    and the slot is released, the order that starts next is the first of the
    priority queue if that queue is not empty, and the first of the
    secondary queue only if the priority queue is empty; the picked id is in
    neither queue when its processing starts, and the others keep their
    order. *)
Theorem priority_queue_drained_first (chain : ChainId) (s : Processor) :
  reachable chain s ->
  is_Some (inFlight s) ->
  (forall params,
     (status (orderInfo params) = OrderInfoStatus.Created ->
      process params s
      = (Return,
         set_priorityQueue (set_add (orderId (orderInfo params)))
           (set_incomingOrdersMap
              (insert (orderId (orderInfo params)) params) s)))
     /\ (status (orderInfo params) = OrderInfoStatus.ArchivalCreated ->
         process params s
         = (Return,
            set_queue (set_add (orderId (orderInfo params)))
              (set_incomingOrdersMap
                 (insert (orderId (orderInfo params)) params) s))))
  /\ (forall env next rest,
        priorityQueue (processOrder_settled env s) = next :: rest ->
        fst <$> inFlight (snd (tryProcess_resume env s)) = Some next
        /\ priorityQueue (snd (tryProcess_resume env s)) = rest
        /\ queue (snd (tryProcess_resume env s))
           = set_delete next (queue (processOrder_settled env s))
        /\ (next ∉ priorityQueue (snd (tryProcess_resume env s)))
        /\ (next ∉ queue (snd (tryProcess_resume env s))))
  /\ (forall env next rest,
        priorityQueue (processOrder_settled env s) = [] ->
        queue (processOrder_settled env s) = next :: rest ->
        fst <$> inFlight (snd (tryProcess_resume env s)) = Some next
        /\ priorityQueue (snd (tryProcess_resume env s)) = []
        /\ queue (snd (tryProcess_resume env s)) = rest
        /\ next ∉ queue (snd (tryProcess_resume env s)))
  /\ (forall env,
        priorityQueue (processOrder_settled env s) = [] ->
        queue (processOrder_settled env s) = [] ->
        inFlight (snd (tryProcess_resume env s)) = None
        /\ isLocked (snd (tryProcess_resume env s)) = false).
Proof.
  intros Hr [[id lookup] Hfl].
  pose proof (reachable_invariant chain s Hr) as Hinv.
  assert (Hlk : isLocked s = true) by (apply (inv_lock _ Hinv); eauto).
  assert (Hinv1 : forall env, pipeline_invariant (processOrder_settled env s)).
  { intros env. unfold processOrder_settled. rewrite Hfl.
    by apply invariant_processOrder. }
  split; [| split; [| split]].
  - intros params. unfold process, mbind, M_bind, modify, tryProcess.
    split; intros Hst; rewrite Hst; simpl; rewrite lookup_insert_eq, Hlk;
      simpl; by rewrite Hst.
  - intros env next rest Hpq.
    rewrite (tryProcess_resume_unfold env s id lookup Hinv Hfl), Hpq. simpl.
    pose proof (inv_nodup_priority _ (Hinv1 env)) as Hnd.
    rewrite Hpq in *.
    split; [done |]. split; [by apply NoDup_set_delete_head |].
    split; [done |]. split; [| apply not_elem_of_set_delete].
    rewrite NoDup_set_delete_head by done. by apply NoDup_cons in Hnd as [? _].
  - intros env next rest Hpq Hq.
    rewrite (tryProcess_resume_unfold env s id lookup Hinv Hfl), Hpq, Hq. simpl.
    pose proof (inv_nodup_queue _ (Hinv1 env)) as Hnd.
    rewrite Hpq, Hq in *.
    split; [done |]. split; [done |].
    rewrite NoDup_set_delete_head by done.
    split; [done |]. by apply NoDup_cons in Hnd as [? _].
  - intros env Hpq Hq.
    by rewrite (tryProcess_resume_unfold env s id lookup Hinv Hfl), Hpq, Hq.
Qed.

(** Scenario 3 of the specification: "A" is processed while "B" (created)
    and "C" (archival) arrive; when "A" is done, "B" starts and "C" waits. *)
Lemma priority_queue_drained_first_witness :
  reachable Polygon processingA_waitingBC
  /\ is_Some (inFlight processingA_waitingBC)
  /\ priorityQueue (processOrder_settled allGood processingA_waitingBC)
     = ["B"%string]
  /\ fst <$> inFlight (settled allGood processingA_waitingBC) = Some "B"%string
  /\ queue (settled allGood processingA_waitingBC) = ["C"%string].
Proof.
  assert (Hfl : is_Some (inFlight processingA_waitingBC)) by (eexists; reflexivity).
  split; [exact reachable_processingA_waitingBC |].
  split; [exact Hfl |]. split; [reflexivity |].
  destruct (priority_queue_drained_first Polygon processingA_waitingBC
              reachable_processingA_waitingBC Hfl) as (_ & Hpriority & _ & _).
  destruct (Hpriority allGood "B"%string [] eq_refl) as (Hnext & _ & Hq & _ & _).
  split; [exact Hnext | exact Hq].
Defined.

(** C6.  In every reachable state in which [tryProcess] awaits a call of
    [processOrder]: however the call ends ([outcome] is a normal return or
    a throw), the lock is held until then, [tryProcess] raises nothing, the
    lock is reset to [false], and the next queued order, if there is one, is
    picked and its processing started; the lock is held afterwards only for
    that next order. *)
Theorem lock_released_when_processOrder_ends (chain : ChainId) (env : Env)
    (s : Processor) (id : string) (lookup : option IncomingOrderContext)
    (outcome : Flow unit) (s1 : Processor) :
  reachable chain s ->
  inFlight s = Some (id, lookup) ->
  processOrder env id lookup s = (outcome, s1) ->
  isLocked s = true
  /\ isLocked s1 = true
  /\ tryProcess_resume env s
     = match head (priorityQueue s1 ++ queue s1) with
       | Some next =>
           (Next tt,
            set_lock true (Some (next, incomingOrdersMap s1 !! next))
              (set_queue (set_delete next)
                 (set_priorityQueue (set_delete next)
                    (set_lock false None s1))))
       | None => (Return, set_lock false None s1)
       end
  /\ (forall e, fst (tryProcess_resume env s) ≠ Raise e)
  /\ (priorityQueue s1 = [] -> queue s1 = [] ->
      isLocked (snd (tryProcess_resume env s)) = false)
  /\ (isLocked (snd (tryProcess_resume env s)) = true ->
      exists next,
        (next ∈ priorityQueue s1 \/ next ∈ queue s1)
        /\ fst <$> inFlight (snd (tryProcess_resume env s)) = Some next).
Proof.
  intros Hr Hfl Hrun.
  pose proof (reachable_invariant chain s Hr) as Hinv.
  assert (Hlk : isLocked s = true) by (apply (inv_lock _ Hinv); eauto).
  destruct (invariant_processOrder env s id lookup Hinv Hfl) as (_ & _ & Hlk1).
  rewrite Hrun in Hlk1. simpl in Hlk1.
  assert (Hs1 : processOrder_settled env s = s1).
  { unfold processOrder_settled. by rewrite Hfl, Hrun. }
  pose proof (tryProcess_resume_unfold env s id lookup Hinv Hfl) as Hres.
  rewrite Hs1 in Hres.
  split; [done |]. split; [congruence |]. split; [exact Hres |].
  rewrite Hres.
  destruct (head (priorityQueue s1 ++ queue s1)) as [next |] eqn:Hhead; simpl.
  - split; [done |]. split.
    + intros Hp Hq. by rewrite Hp, Hq in Hhead.
    + intros _. exists next. split; [| done].
      apply elem_of_app. by apply head_Some_elem_of.
  - split; [done |]. split; [done |]. done.
Qed.

(** The first call of "A"'s processing is rejected by the take chain's
    node: [processOrder] throws, "B" starts and "C" waits. *)
Lemma lock_released_when_processOrder_ends_witness :
  reachable Polygon processingA_waitingBC
  /\ fst (processOrder rpcDown "A" (Some orderA_finalized) processingA_waitingBC)
     = Raise Rejected
  /\ fst (tryProcess_resume rpcDown processingA_waitingBC) = Next tt
  /\ fst <$> inFlight (settled rpcDown processingA_waitingBC) = Some "B"%string
  /\ queue (settled rpcDown processingA_waitingBC) = ["C"%string].
Proof.
  split; [exact reachable_processingA_waitingBC |].
  split; [reflexivity |].
  destruct (lock_released_when_processOrder_ends Polygon rpcDown
              processingA_waitingBC "A" (Some orderA_finalized)
              (Raise Rejected) processingA_waitingBC
              reachable_processingA_waitingBC eq_refl eq_refl)
    as (_ & _ & Hres & _).
  unfold settled. rewrite Hres. repeat split.
Defined.

(** *** The gas cap *)

(** [Math.round(g * 1.25)] is [5g/4] rounded to the nearest integer, a
    half rounded up. *)
Lemma round_mul_1_25_eq (g : Z) : round_mul_1_25 g = (5 * g + 2) / 4.
Proof.
  unfold round_mul_1_25, Qfloor. simpl.
  change (Z.pos (1 * 4 * 2)) with (2 * 4).
  replace (g * 5 * 2 + 1 * Z.pos (1 * 4)) with (2 * (5 * g + 2)) by lia.
  by rewrite Z.div_mul_cancel_l.
Qed.

(** C7.  The take chain is an EVM chain and the order has come as far as
    the final gas estimation: it passed the on-chain checks and the
    confirmation thresholds, the balance covers the rough amount, the
    preliminary estimation gave [preliminaryGas], the order is profitable and
    the final transaction is built.  If the final estimate exceeds the cap
    declared during pre-estimation, which is [preliminaryGas * 1.25] rounded
    to the nearest integer, [processOrder] returns without handing any
    transaction to [sendTransaction], and the order is in the mempool
    scheduler with a delay of 5 seconds when [attempts < 2] and with no delay
    of its own (the standard one) otherwise. *)
Theorem gas_blowout_goes_to_mempool (env : Env) (id : string)
    (params : IncomingOrderContext) (s : Processor)
    (allowPlaceToMempool : bool) (picked : PickedBucket) (decimals : Z * Z)
    (balance currentGasPrice preliminaryGas finalGas : Z)
    (preliminaryTx finalTx : Tx) (expected : ExpectedTakeAmount) :
  getEngineByChainId (takeChain s) = EVM ->
  getEngineByChainId (chainId (take (order (orderInfo params)))) = EVM ->
  passesOnChainChecks env ->
  confirmationStage env params s = (Next allowPlaceToMempool, s) ->
  pickReserveToken env = Ok picked ->
  reserveTokenDecimals env = Ok decimals ->
  getBalance env = Ok balance ->
  roughReserveDstAmount (amount (give (order (orderInfo params))))
    (fst decimals) (snd decimals) <= balance ->
  preliminaryFulfillTx env = Ok preliminaryTx ->
  getGasPrice env = Ok currentGasPrice ->
  preliminaryEstimateGas env = Ok preliminaryGas ->
  calculateExpectedTakeAmount env = Ok expected ->
  isProfitable expected = true ->
  reserveDstToken expected = picked_reserveDstToken picked ->
  finalFulfillTx env = Ok finalTx ->
  finalEstimateGas env = Ok finalGas ->
  round_mul_1_25 preliminaryGas < finalGas ->
  processOrder env id (Some params) s
  = (Return,
     set_mempoolService
       (insert (orderId (orderInfo params))
               {| entry_params := params;
                  entry_delay := if attempts params <? 2 then Some 5 else None |})
       s)
  /\ sentTransactions (snd (processOrder env id (Some params) s))
     = sentTransactions s
  /\ round_mul_1_25 preliminaryGas = (5 * preliminaryGas + 2) / 4.
Proof.
  intros Htake Hordertake Hchecks Hconf Hpick Hdec Hbal Hle Hpre Hprice Hgas
    Hexp Hprof Htoken Hfinal Hest Hgt.
  assert (Hrun : processOrder env id (Some params) s
    = (Return,
       set_mempoolService
         (insert (orderId (orderInfo params))
                 {| entry_params := params;
                    entry_delay := if attempts params <? 2 then Some 5 else None |})
         s)).
  { rewrite processOrder_after_checks by done.
    unfold mbind at 1. unfold M_bind at 1. rewrite Hconf.
    unfold fulfillStage.
    rewrite Hpick, Hdec, Hbal, Hexp, Hfinal. unfold mbind, M_bind. simpl.
    destruct (Z.ltb_spec balance
                (roughReserveDstAmount (amount (give (order (orderInfo params))))
                   (fst decimals) (snd decimals))); [lia |]. simpl.
    unfold preEstimationStage. rewrite Htake, Hpre, Hprice, Hgas. simpl.
    rewrite Hprof. simpl.
    rewrite bool_decide_eq_true_2 by done. simpl.
    unfold finalEstimationStage. rewrite Hordertake, Hest. simpl.
    destruct (Z.ltb_spec (round_mul_1_25 preliminaryGas) finalGas); [| lia].
    reflexivity. }
  split; [exact Hrun |]. split; [by rewrite Hrun |].
  apply round_mul_1_25_eq.
Qed.

(** Scenario 4 of the specification: 100000 gas estimated first, so a cap
    of 125000, and a final estimate of 140000, on the order's first attempt. *)
Lemma gas_blowout_goes_to_mempool_witness :
  round_mul_1_25 100000 = 125000
  /\ processOrder gasBlowout "A" (Some orderA_finalized) processingA
     = (Return,
        set_mempoolService
          (insert "A"%string
             {| entry_params := orderA_finalized; entry_delay := Some 5 |})
          processingA)
  /\ sentTransactions
       (snd (processOrder gasBlowout "A" (Some orderA_finalized) processingA)) = [].
Proof.
  assert (Hchecks : passesOnChainChecks gasBlowout)
    by (apply allGood_passesOnChainChecks; by right).
  split; [reflexivity |].
  destruct (gas_blowout_goes_to_mempool gasBlowout "A" orderA_finalized
              processingA true
              {| picked_reserveSrcToken := "USDC"; picked_reserveDstToken := "USDC" |}
              (6, 6) 200 30 100000 140000 fulfillTx fulfillTx
              {| reserveDstToken := "USDC"; requiredReserveDstAmount := 100;
                 isProfitable := true; reserveToTakeSlippageBps := Some 10 |}
              eq_refl eq_refl Hchecks eq_refl eq_refl eq_refl eq_refl
              ltac:(vm_compute; congruence) eq_refl eq_refl eq_refl eq_refl
              eq_refl eq_refl eq_refl eq_refl ltac:(vm_compute; congruence))
    as (Hrun & Hsent & _).
  split; [exact Hrun | exact Hsent].
Defined.

End PipelineProperties.

(** * Further properties of the code *)

(** ** The executor: constraints, confirmation points, decimals *)

Section ExecutorCoverage.
Import Executor Scenarios.

Lemma Qle_bool_false_le (x y : Q) : Qle_bool x y = false -> (y <= x)%Q.
Proof.
  intros H. apply Qlt_le_weak, Qnot_le_lt. intros Hle.
  apply Qle_bool_iff in Hle. congruence.
Qed.

Section SortByKey.
Context {A : Type} (key : A -> Q).

Lemma insertByKey_perm (x : A) (l : list A) : insertByKey key x l ≡ₚ x :: l.
Proof.
  induction l as [| y l IH]; simpl; [done |].
  destruct (Qle_bool (key x) (key y)); [done |].
  rewrite IH. apply Permutation_swap.
Qed.

Lemma sortByKey_perm (l : list A) : sortByKey key l ≡ₚ l.
Proof.
  induction l as [| x l IH]; simpl; [done |].
  by rewrite insertByKey_perm, IH.
Qed.

Lemma insertByKey_sorted (x : A) (l : list A) :
  StronglySorted (fun a b => (key a <= key b)%Q) l ->
  StronglySorted (fun a b => (key a <= key b)%Q) (insertByKey key x l).
Proof.
  induction l as [| y l IH]; simpl; intros Hl.
  - repeat constructor.
  - apply StronglySorted_inv in Hl as [Hl Hy].
    destruct (Qle_bool (key x) (key y)) eqn:Hxy.
    + apply Qle_bool_iff in Hxy. constructor.
      * by constructor.
      * constructor; [done |].
        eapply Forall_impl; [exact Hy |]. intros z Hz. simpl in Hz.
        by apply Qle_trans with (key y).
    + apply Qle_bool_false_le in Hxy. constructor; [by apply IH |].
      rewrite insertByKey_perm. by constructor.
Qed.

Lemma sortByKey_sorted (l : list A) :
  StronglySorted (fun a b => (key a <= key b)%Q) (sortByKey key l).
Proof.
  induction l as [| x l IH]; simpl; [constructor |].
  by apply insertByKey_sorted.
Qed.
End SortByKey.

Lemma sortByUpperThreshold_sortByKey (l : list SrcConstraintRange) :
  sortByUpperThreshold l = sortByKey upperThreshold l.
Proof.
  unfold sortByUpperThreshold, sortByKey.
  induction l as [| x l IH]; simpl; [done |]. rewrite IH.
  generalize (foldr (insertByKey upperThreshold) [] l). intros k.
  induction k as [| y k IHk]; simpl; [done |]. by rewrite IHk.
Qed.

Lemma mapRes_Forall2 {A B} (f : A -> Res B) (l : list A) (ys : list B) :
  mapRes f l = Ok ys -> Forall2 (fun x y => f x = Ok y) l ys.
Proof.
  revert ys. induction l as [| x l IH]; simpl; intros ys H.
  - inversion H. constructor.
  - destruct (f x) as [y |] eqn:Hx; [| done].
    destruct (mapRes f l) as [ys' |]; [| done].
    inversion H; subst. constructor; [done | by apply IH].
Qed.

(** What [getSrcConstraintsPerOrderValue] returns is what its [.map]
    callback gave for the thresholds, reordered. *)
Lemma getSrcConstraintsPerOrderValue_Ok (chain : SupportedChain.t)
    (cfg : ChainConstraints) (ranges : list SrcConstraintRange) :
  getSrcConstraintsPerOrderValue chain cfg = Ok ranges ->
  exists converted,
    Forall2 (fun c r => toSrcConstraintRange chain cfg c = Ok r)
            (default [] (requiredConfirmationsThresholds cfg)) converted
    /\ ranges = sortByKey upperThreshold converted.
Proof.
  unfold getSrcConstraintsPerOrderValue. intros H.
  destruct (mapRes _ _) as [converted |] eqn:Hmap; [| done].
  injection H as <-. exists converted.
  split; [by apply mapRes_Forall2 | apply sortByUpperThreshold_sortByKey].
Qed.

Lemma toSrcConstraintRange_Ok (chain : SupportedChain.t) (cfg : ChainConstraints)
    (c : RequiredConfirmationsThreshold) (r : SrcConstraintRange) :
  toSrcConstraintRange chain cfg c = Ok r ->
  upperThreshold r = thresholdAmountInUSD c
  /\ range_minBlockConfirmations r = or_zero (minBlockConfirmations c)
  /\ range_minBlockConfirmations r < BLOCK_CONFIRMATIONS_HARD_CAPS chain
  /\ range_fulfillmentDelay r
     = getSrcConstraints
         {| raw_fulfillmentDelay := threshold_fulfillmentDelay c |}
         (Some {| raw_fulfillmentDelay := fulfillmentDelay cfg |}).
Proof.
  unfold toSrcConstraintRange.
  destruct (Z.leb_spec (BLOCK_CONFIRMATIONS_HARD_CAPS chain)
              (or_zero (minBlockConfirmations c))); [done |].
  by intros [= <-].
Qed.

Lemma Forall2_elem_of_r {A B} (R : A -> B -> Prop) (l : list A) (k : list B)
    (y : B) :
  Forall2 R l k -> y ∈ k -> exists x, x ∈ l /\ R x y.
Proof.
  induction 1 as [| x y' l k Hxy _ IH]; intros Hy.
  - by apply elem_of_nil in Hy.
  - apply elem_of_cons in Hy as [-> | Hy].
    + exists x. split; [apply list_elem_of_here | done].
    + destruct (IH Hy) as (x' & Hx' & HR).
      exists x'. split; [by apply list_elem_of_further | done].
Qed.

Lemma Forall2_map_eq {A B C} (f : A -> C) (g : B -> C) (l : list A) (k : list B) :
  Forall2 (fun x y => g y = f x) l k -> map g k = map f l.
Proof. induction 1; simpl; [done | by f_equal]. Qed.

(** X1.  When [getSrcConstraintsPerOrderValue] returns, the ranges are in
    ascending order of [upperThreshold], and their thresholds are those of
    the configured [requiredConfirmationsThresholds], each as often as it is
    configured: sorting neither drops nor adds a range. *)
Theorem srcConstraints_sorted_by_threshold (chain : SupportedChain.t)
    (cfg : ChainConstraints) (ranges : list SrcConstraintRange) :
  getSrcConstraintsPerOrderValue chain cfg = Ok ranges ->
  StronglySorted (fun a b => (upperThreshold a <= upperThreshold b)%Q) ranges
  /\ map upperThreshold ranges
     ≡ₚ map thresholdAmountInUSD (default [] (requiredConfirmationsThresholds cfg)).
Proof.
  intros H. apply getSrcConstraintsPerOrderValue_Ok in H as (converted & Hall & ->).
  split; [apply sortByKey_sorted |].
  rewrite sortByKey_perm.
  erewrite Forall2_map_eq; [done |].
  eapply Forall2_impl; [exact Hall |].
  intros c r Hc. by apply toSrcConstraintRange_Ok in Hc as (? & _).
Qed.

(** Thresholds of 1000 USD (11 confirmations) and 100 USD (none) on Ethereum,
    with a delay of 3 seconds for the chain and of 7 for the second range. *)
Lemma srcConstraints_sorted_by_threshold_witness :
  map upperThreshold
    [ {| upperThreshold := 100; range_minBlockConfirmations := 0;
         range_fulfillmentDelay := 7 |};
      {| upperThreshold := 1000; range_minBlockConfirmations := 11;
         range_fulfillmentDelay := 3 |} ]
  ≡ₚ [1000%Q; 100%Q].
Proof.
  exact (proj2 (srcConstraints_sorted_by_threshold SupportedChain.Ethereum
    {| fulfillmentDelay := Some 3;
       requiredConfirmationsThresholds :=
         Some [ {| thresholdAmountInUSD := 1000; minBlockConfirmations := Some 11;
                   threshold_fulfillmentDelay := None |};
                {| thresholdAmountInUSD := 100; minBlockConfirmations := None;
                   threshold_fulfillmentDelay := Some 7 |} ] |}
    _ eq_refl)).
Defined.

Lemma srcConstraints_range_origin_aux (chain : SupportedChain.t)
    (cfg : ChainConstraints) (ranges : list SrcConstraintRange)
    (r : SrcConstraintRange) :
  getSrcConstraintsPerOrderValue chain cfg = Ok ranges ->
  r ∈ ranges ->
  exists c,
    c ∈ default [] (requiredConfirmationsThresholds cfg)
    /\ range_minBlockConfirmations r = default 0 (minBlockConfirmations c)
    /\ range_minBlockConfirmations r < BLOCK_CONFIRMATIONS_HARD_CAPS chain.
Proof.
  intros H Hr. apply getSrcConstraintsPerOrderValue_Ok in H as (converted & Hall & ->).
  rewrite sortByKey_perm in Hr.
  destruct (Forall2_elem_of_r _ _ _ r Hall Hr) as (c & Hc & Hconv).
  apply toSrcConstraintRange_Ok in Hconv as (_ & Hmin & Hcap & _).
  by exists c.
Qed.

(** X2.  Every range [getSrcConstraintsPerOrderValue] returns comes from a
    configured threshold: it has that threshold's amount as its upper bound,
    its [minBlockConfirmations] (0 when left out), which is below the hard
    cap, and as [fulfillmentDelay] the threshold's own delay if that is given
    and not 0, else the chain's delay if that is given and not 0, else 0.  So a
    range cannot set a delay of 0 where the chain has one. *)
Theorem srcConstraints_range_origin (chain : SupportedChain.t)
    (cfg : ChainConstraints) (ranges : list SrcConstraintRange)
    (r : SrcConstraintRange) :
  getSrcConstraintsPerOrderValue chain cfg = Ok ranges ->
  r ∈ ranges ->
  exists c,
    c ∈ default [] (requiredConfirmationsThresholds cfg)
    /\ upperThreshold r = thresholdAmountInUSD c
    /\ range_minBlockConfirmations r = default 0 (minBlockConfirmations c)
    /\ range_minBlockConfirmations r < BLOCK_CONFIRMATIONS_HARD_CAPS chain
    /\ range_fulfillmentDelay r
       = match threshold_fulfillmentDelay c with
         | Some own => if own =? 0 then default 0 (fulfillmentDelay cfg) else own
         | None => default 0 (fulfillmentDelay cfg)
         end.
Proof.
  intros H Hr. apply getSrcConstraintsPerOrderValue_Ok in H as (converted & Hall & ->).
  rewrite sortByKey_perm in Hr.
  destruct (Forall2_elem_of_r _ _ _ r Hall Hr) as (c & Hc & Hconv).
  apply toSrcConstraintRange_Ok in Hconv as (Hup & Hmin & Hcap & Hdelay).
  exists c. repeat split; try done.
  rewrite Hdelay. unfold getSrcConstraints, or_else, or_zero, truthy. simpl.
  destruct (threshold_fulfillmentDelay c) as [own |]; simpl; [| done].
  by destruct (own =? 0).
Qed.

Lemma srcConstraints_range_origin_witness :
  exists c,
    c ∈ [ {| thresholdAmountInUSD := 1000; minBlockConfirmations := Some 11;
             threshold_fulfillmentDelay := Some 0 |} ]
    /\ (1000 : Q) = thresholdAmountInUSD c
    /\ 11 = default 0 (minBlockConfirmations c)
    /\ 11 < BLOCK_CONFIRMATIONS_HARD_CAPS SupportedChain.Ethereum
    /\ 3 = match threshold_fulfillmentDelay c with
           | Some own => if own =? 0 then 3 else own
           | None => 3
           end.
Proof.
  exact (srcConstraints_range_origin SupportedChain.Ethereum
    {| fulfillmentDelay := Some 3;
       requiredConfirmationsThresholds :=
         Some [ {| thresholdAmountInUSD := 1000; minBlockConfirmations := Some 11;
                   threshold_fulfillmentDelay := Some 0 |} ] |}
    _ {| upperThreshold := 1000; range_minBlockConfirmations := 11;
         range_fulfillmentDelay := 3 |}
    eq_refl (list_elem_of_here _ _)).
Defined.

(** X3.  [getDstConstraintsPerOrderValue] returns one range per configured
    entry, in ascending order of [upperThreshold]; each range has as
    [preFulfillSwapChangeRecipient] the entry's own recipient if given, else
    the chain's if given, else "taker", and as [fulfillmentDelay] the entry's
    own delay if given and not 0, else the chain's if given and not 0, else 0. *)
Theorem dstConstraints_sorted_with_defaults (cfg : ChainDstConstraints) :
  StronglySorted (fun a b => (dst_upperThreshold a <= dst_upperThreshold b)%Q)
    (getDstConstraintsPerOrderValue cfg)
  /\ map dst_upperThreshold (getDstConstraintsPerOrderValue cfg)
     ≡ₚ map config_upperThreshold (default [] (perOrderValueUpperThreshold cfg))
  /\ forall r,
       r ∈ getDstConstraintsPerOrderValue cfg ->
       exists c,
         c ∈ default [] (perOrderValueUpperThreshold cfg)
         /\ dst_upperThreshold r = config_upperThreshold c
         /\ preFulfillSwapChangeRecipient (dst_constraints r)
            = match raw_preFulfillSwapChangeRecipient (config_constraints c) with
              | Some own => own
              | None =>
                  default taker
                    (raw_preFulfillSwapChangeRecipient (dst_defaults cfg))
              end
         /\ dst_fulfillmentDelay (dst_constraints r)
            = match raw_dst_fulfillmentDelay (config_constraints c) with
              | Some own =>
                  if own =? 0
                  then default 0 (raw_dst_fulfillmentDelay (dst_defaults cfg))
                  else own
              | None => default 0 (raw_dst_fulfillmentDelay (dst_defaults cfg))
              end.
Proof.
  unfold getDstConstraintsPerOrderValue.
  split; [apply sortByKey_sorted |]. split.
  - rewrite sortByKey_perm, map_map. done.
  - intros r. rewrite sortByKey_perm. intros Hr.
    apply list_elem_of_fmap in Hr as (c & -> & Hc).
    exists c. split; [done |]. split; [done |]. simpl. split.
    + by destruct (raw_preFulfillSwapChangeRecipient (config_constraints c)).
    + unfold or_else, or_zero, truthy.
      destruct (raw_dst_fulfillmentDelay (config_constraints c)) as [own |];
        simpl; [| done].
      by destruct (own =? 0).
Qed.

Lemma elem_of_confirmationPoints (perOrderValue : list SrcConstraintRange) (point : Z) :
  point ∈ confirmationPoints perOrderValue
  <-> 0 < point
      /\ exists r, r ∈ perOrderValue /\ range_minBlockConfirmations r = point.
Proof.
  unfold confirmationPoints.
  rewrite list_elem_of_In, filter_In, <- list_elem_of_In, list_elem_of_fmap.
  rewrite Z.ltb_lt. split.
  - intros ((r & -> & Hr) & Hpos). eauto.
  - intros (Hpos & r & Hr & <-). eauto.
Qed.

(** X4.  The confirmation points [init] announces to the order feed for a
    chain (the [minBlockConfirmations] of its ranges that are greater than 0)
    are all strictly between 0 and the chain's hard cap, and each is the
    [minBlockConfirmations] of a configured threshold; a chain enters
    [minConfirmationThresholds] only with at least one point. *)
Theorem announced_points_below_hard_cap (chain : SupportedChain.t)
    (cfg : ChainConstraints) (ranges : list SrcConstraintRange) :
  getSrcConstraintsPerOrderValue chain cfg = Ok ranges ->
  (forall point,
     point ∈ confirmationPoints ranges ->
     0 < point < BLOCK_CONFIRMATIONS_HARD_CAPS chain
     /\ exists c,
          c ∈ default [] (requiredConfirmationsThresholds cfg)
          /\ minBlockConfirmations c = Some point)
  /\ (forall chains chainId points,
        (chainId, points) ∈ minConfirmationThresholds chains ->
        points ≠ []
        /\ exists perOrderValue,
             (chainId, perOrderValue) ∈ chains
             /\ points = confirmationPoints perOrderValue).
Proof.
  intros H. split.
  - intros point Hpoint.
    apply elem_of_confirmationPoints in Hpoint as (Hpos & r & Hr & Hmin).
    destruct (srcConstraints_range_origin_aux chain cfg ranges r H Hr)
      as (c & Hc & Hmin' & Hcap).
    rewrite Hmin in *. split; [lia |]. exists c. split; [done |].
    destruct (minBlockConfirmations c) as [v |]; simpl in Hmin'; [by subst | lia].
  - intros chains chainId points.
    unfold minConfirmationThresholds.
    rewrite list_elem_of_In, filter_In, <- list_elem_of_In, list_elem_of_fmap.
    intros (([c perOrderValue] & [= -> ->] & Hin) & Hlen). simpl in *.
    split; [| by exists perOrderValue].
    intros Hnil. rewrite Hnil in Hlen. done.
Qed.

Lemma announced_points_below_hard_cap_witness :
  confirmationPoints
    [ {| upperThreshold := 100; range_minBlockConfirmations := 0;
         range_fulfillmentDelay := 7 |};
      {| upperThreshold := 1000; range_minBlockConfirmations := 11;
         range_fulfillmentDelay := 3 |} ] = [11]
  /\ 0 < 11 < BLOCK_CONFIRMATIONS_HARD_CAPS SupportedChain.Ethereum.
Proof.
  split; [reflexivity |].
  exact (proj1 (proj1 (announced_points_below_hard_cap SupportedChain.Ethereum
    {| fulfillmentDelay := Some 3;
       requiredConfirmationsThresholds :=
         Some [ {| thresholdAmountInUSD := 1000; minBlockConfirmations := Some 11;
                   threshold_fulfillmentDelay := None |};
                {| thresholdAmountInUSD := 100; minBlockConfirmations := None;
                   threshold_fulfillmentDelay := Some 7 |} ] |}
    _ eq_refl) 11 (list_elem_of_here _ _))).
Defined.

(** X5.  [resyncDecimals] to a token with at least as many decimals and back
    returns the amount it started from, for every amount: nothing is lost in
    that direction.  When the decimals of either token cannot be read, the
    call is rejected. *)
Theorem resyncDecimals_up_and_back
    (getDecimals : ChainId -> Address -> option Z)
    (chainIn : ChainId) (tokenIn : Address) (amountIn : Z)
    (chainOut : ChainId) (tokenOut : Address) :
  (forall decimalsIn decimalsOut,
     getDecimals chainIn tokenIn = Some decimalsIn ->
     getDecimals chainOut tokenOut = Some decimalsOut ->
     decimalsIn <= decimalsOut ->
     exists there,
       resyncDecimals getDecimals chainIn tokenIn amountIn chainOut tokenOut
       = Some there
       /\ resyncDecimals getDecimals chainOut tokenOut there chainIn tokenIn
          = Some amountIn)
  /\ (getDecimals chainIn tokenIn = None \/ getDecimals chainOut tokenOut = None ->
      resyncDecimals getDecimals chainIn tokenIn amountIn chainOut tokenOut = None).
Proof.
  split.
  - intros decimalsIn decimalsOut Hin Hout Hle.
    unfold resyncDecimals. rewrite Hin, Hout. simpl.
    destruct (Z.eqb_spec decimalsIn decimalsOut) as [-> | Hne].
    + exists amountIn. by rewrite Z.eqb_refl.
    + destruct (Z.ltb_spec 0 (decimalsIn - decimalsOut)); [lia |].
      eexists. split; [done |].
      destruct (Z.eqb_spec decimalsOut decimalsIn); [lia |].
      destruct (Z.ltb_spec 0 (decimalsOut - decimalsIn)); [| lia].
      f_equal.
      replace (- (decimalsIn - decimalsOut)) with (decimalsOut - decimalsIn) by lia.
      apply Z.quot_mul. pose proof (pow10_pos (decimalsOut - decimalsIn)). lia.
  - unfold resyncDecimals. intros [-> | ->]; [done |].
    by destruct (getDecimals chainIn tokenIn).
Qed.

End ExecutorCoverage.

(** ** The executor: which orders reach a processor *)

Section ExecuteCoverage.
Import UniversalProcessor ExecutorOrders.

Lemma mapRes_elem_of {A B} (f : A -> Res B) (l : list A) (ys : list B) (x : A) :
  Executor.mapRes f l = Ok ys -> x ∈ l -> exists y, f x = Ok y /\ y ∈ ys.
Proof.
  revert ys. induction l as [| a l IH]; simpl; intros ys H Hx.
  - by apply elem_of_nil in Hx.
  - destruct (f a) as [b |] eqn:Ha; [| done].
    destruct (Executor.mapRes f l) as [ys' |]; [| done].
    injection H as <-. apply elem_of_cons in Hx as [-> | Hx].
    + exists b. split; [done | apply list_elem_of_here].
    + destruct (IH ys' eq_refl Hx) as (y & Hy & Hin).
      exists y. split; [done | by apply list_elem_of_further].
Qed.

Lemma every_true (orderFilters : list bool) :
  every orderFilters = true <-> Forall (fun it => it = true) orderFilters.
Proof.
  unfold every. rewrite forallb_forall, Forall_forall.
  split; intros H x Hx; by apply H, list_elem_of_In.
Qed.

(** X6.  [executeOrder] calls [process] at most once, on the processor of the
    order's take chain and with the order as received, and returns [true]
    exactly when it made the call.  It makes the call exactly when the order
    and a non-empty order id are present, the take chain and the give chain
    are both configured and, for a [Created] or [ArchivalCreated] order, every
    filter of the take chain's [dstFilters] and of the give chain's [srcFilters]
    answers [true]; for every other status the filters are not consulted. *)
Theorem executeOrder_admission (chains : Chains) (nextOrderInfo : NextOrderInfo) :
  (fst (executeOrder chains nextOrderInfo) = Returned true
   <-> snd (executeOrder chains nextOrderInfo) ≠ [])
  /\ (forall calls,
        snd (executeOrder chains nextOrderInfo) = calls ->
        calls = []
        \/ exists order,
             next_order nextOrderInfo = Some order
             /\ calls = [ProcessOn (chainId (take order))
                           {| orderId := next_orderId nextOrderInfo;
                              status := next_status nextOrderInfo;
                              order := order;
                              finalization_info :=
                                next_finalization_info nextOrderInfo |}])
  /\ (snd (executeOrder chains nextOrderInfo) ≠ []
      <-> exists order takeChain giveChain,
            next_order nextOrderInfo = Some order
            /\ next_orderId nextOrderInfo ≠ ""%string
            /\ chains (chainId (take order)) = Some takeChain
            /\ chains (chainId (give order)) = Some giveChain
            /\ (isCreation (next_status nextOrderInfo) = true ->
                exists answers,
                  runFilters (dstFilters takeChain ++ srcFilters giveChain) order
                  = Ok answers
                  /\ Forall (fun it => it = true) answers)).
Proof.
  unfold executeOrder.
  destruct (next_order nextOrderInfo) as [order |]; simpl.
  2: { split; [split; done |]. split; [by left |].
       split; [done | by intros (? & ? & ? & ? & _)]. }
  case_bool_decide as Hid; simpl.
  { split; [split; done |]. split; [by left |].
    split; [done | by intros (? & ? & ? & [= <-] & ? & _)]. }
  destruct (chains (chainId (take order))) as [takeChain |] eqn:Htake; simpl.
  2: { split; [split; done |]. split; [by left |]. split; [done |].
       intros (? & ? & ? & [= <-] & _ & Ht & _). congruence. }
  destruct (chains (chainId (give order))) as [giveChain |] eqn:Hgive; simpl.
  2: { split; [split; done |]. split; [by left |]. split; [done |].
       intros (? & ? & ? & [= <-] & _ & _ & Hg & _). congruence. }
  destruct (isCreation (next_status nextOrderInfo)) eqn:Hcreation.
  - destruct (runFilters _ order) as [answers | e] eqn:Hrun; simpl.
    + destruct (every answers) eqn:Hevery; simpl.
      * split; [split; done |]. split; [intros ? <-; right; eauto |].
        split; [intros _ | done].
        exists order, takeChain, giveChain. repeat split; try done.
        intros _. exists answers. split; [done | by apply every_true].
      * split; [split; done |]. split; [by left |]. split; [done |].
        intros (? & ? & ? & [= <-] & _ & Ht & Hg & Hall).
        rewrite Htake in Ht. rewrite Hgive in Hg.
        injection Ht as <-. injection Hg as <-.
        destruct (Hall eq_refl) as (answers' & Hrun' & Htrue).
        rewrite Hrun in Hrun'. injection Hrun' as <-.
        apply every_true in Htrue. congruence.
    + split; [split; done |]. split; [by left |]. split; [done |].
      intros (? & ? & ? & [= <-] & _ & Ht & Hg & Hall).
      rewrite Htake in Ht. rewrite Hgive in Hg.
      injection Ht as <-. injection Hg as <-.
      destruct (Hall eq_refl) as (answers' & Hrun' & _). congruence.
  - split; [split; done |]. split; [intros ? <-; right; eauto |].
    split; [intros _ | done].
    exists order, takeChain, giveChain. repeat split; done.
Qed.

(** X7.  With the take chain and the give chain configured, an order that is
    neither [Created] nor [ArchivalCreated] always reaches the take chain's
    processor, whatever the filters would answer; a [Created] or
    [ArchivalCreated] order on which one filter answers [false] never does,
    and [execute] ends the same way when another filter's promise is
    rejected.  So a take chain disabled in the configuration ([init] then adds
    [disableFulfill()] to its [dstFilters]) takes no new order if that filter
    answers [false], and still receives the other events. *)
Theorem filters_stop_creations_only (chains : Chains)
    (nextOrderInfo : NextOrderInfo) (order : OrderData)
    (takeChain giveChain : ExecutorSupportedChain) :
  next_order nextOrderInfo = Some order ->
  next_orderId nextOrderInfo ≠ ""%string ->
  chains (chainId (take order)) = Some takeChain ->
  chains (chainId (give order)) = Some giveChain ->
  (isCreation (next_status nextOrderInfo) = false ->
   executeOrder chains nextOrderInfo
   = (Returned true,
      [ProcessOn (chainId (take order))
         {| orderId := next_orderId nextOrderInfo;
            status := next_status nextOrderInfo;
            order := order;
            finalization_info := next_finalization_info nextOrderInfo |}]))
  /\ (isCreation (next_status nextOrderInfo) = true ->
      forall filter,
        filter ∈ dstFilters takeChain ++ srcFilters giveChain ->
        filter order = Ok false ->
        execute chains nextOrderInfo = []
        /\ fst (executeOrder chains nextOrderInfo) ≠ Returned true)
  /\ (isCreation (next_status nextOrderInfo) = true ->
      forall own globalFilters disableFulfill,
        dstFilters takeChain
        = initDstFilters own true disableFulfill globalFilters ->
        disableFulfill order = Ok false ->
        execute chains nextOrderInfo = []).
Proof.
  intros Horder Hid Htake Hgive.
  assert (Hstop : isCreation (next_status nextOrderInfo) = true ->
    forall filter,
      filter ∈ dstFilters takeChain ++ srcFilters giveChain ->
      filter order = Ok false ->
      execute chains nextOrderInfo = []
      /\ fst (executeOrder chains nextOrderInfo) ≠ Returned true).
  { intros Hcreation filter Hin Hfalse.
    unfold execute, executeOrder. rewrite Horder, Htake, Hgive, Hcreation.
    rewrite bool_decide_eq_false_2 by done.
    destruct (runFilters _ order) as [answers | e] eqn:Hrun; [| done].
    destruct (mapRes_elem_of _ _ _ filter Hrun Hin) as (b & Hb & Hb').
    rewrite Hfalse in Hb. injection Hb as <-.
    destruct (every answers) eqn:Hevery; [| done].
    apply every_true in Hevery. rewrite Forall_forall in Hevery.
    by specialize (Hevery false Hb'). }
  split; [| split; [exact Hstop |]].
  - intros Hcreation. unfold executeOrder.
    rewrite Horder, Htake, Hgive, Hcreation.
    by rewrite bool_decide_eq_false_2.
  - intros Hcreation own globalFilters disableFulfill Hfilters Hfalse.
    apply (Hstop Hcreation disableFulfill); [| done].
    rewrite Hfilters. unfold initDstFilters.
    rewrite !elem_of_app. left. left. right. apply list_elem_of_here.
Qed.

(** Polygon is disabled: a [Created] order for it is dropped, a [Fulfilled]
    event for it reaches its processor. *)
Lemma filters_stop_creations_only_witness :
  ExecutorOrders.execute Scenarios.disabledPolygon
    (Scenarios.eventA OrderInfoStatus.Created) = []
  /\ executeOrder Scenarios.disabledPolygon (Scenarios.eventA OrderInfoStatus.Fulfilled)
     = (Returned true,
        [ProcessOn Polygon
           {| orderId := "A"; status := OrderInfoStatus.Fulfilled;
              order := Scenarios.orderData; finalization_info := Finalized |}]).
Proof.
  split.
  - destruct (filters_stop_creations_only Scenarios.disabledPolygon
                (Scenarios.eventA OrderInfoStatus.Created) Scenarios.orderData
                {| srcFilters := [];
                   dstFilters := initDstFilters None true Scenarios.deny None |}
                {| srcFilters := []; dstFilters := [] |}
                eq_refl ltac:(done) eq_refl eq_refl) as (_ & _ & Hdisabled).
    exact (Hdisabled eq_refl None None Scenarios.deny eq_refl eq_refl).
  - destruct (filters_stop_creations_only Scenarios.disabledPolygon
                (Scenarios.eventA OrderInfoStatus.Fulfilled) Scenarios.orderData
                {| srcFilters := [];
                   dstFilters := initDstFilters None true Scenarios.deny None |}
                {| srcFilters := []; dstFilters := [] |}
                eq_refl ltac:(done) eq_refl eq_refl) as (Hother & _ & _).
    exact (Hother eq_refl).
Defined.

End ExecuteCoverage.

(** ** The swap-connector service: which chains are served *)

Section SwapConnectorCoverage.
Import SwapConnectorImplementationService.

Lemma elem_of_keys (chainId : ChainId) : chainId ∈ keys.
Proof. destruct chainId; apply (bool_decide_unpack _); by vm_compute. Qed.

Lemma NoDup_keys : NoDup keys.
Proof. apply (bool_decide_unpack _). by vm_compute. Qed.

Lemma elem_of_getSupportedChains (connectors : Connectors) (chainId : ChainId) :
  chainId ∈ getSupportedChains connectors <-> is_Some (connectors chainId).
Proof.
  unfold getSupportedChains.
  rewrite list_elem_of_In, filter_In, <- list_elem_of_In.
  split.
  - intros [_ H]. by destruct (connectors chainId).
  - intros [c Hc]. split; [apply elem_of_keys | by rewrite Hc].
Qed.

(** X8.  The chains [getSupportedChains] lists are exactly those for which
    [#getConnector], and so [getEstimate] and [getSwap], does not throw
    "Unsupported chain in swap connector"; no chain is listed twice. *)
Theorem supported_chains_are_those_served (connectors : Connectors)
    (chainId : ChainId) :
  (chainId ∈ getSupportedChains connectors
   <-> exists connector, getConnector connectors chainId = Ok connector)
  /\ (chainId ∉ getSupportedChains connectors
      <-> getConnector connectors chainId = Throw UnsupportedChain)
  /\ NoDup (getSupportedChains connectors).
Proof.
  rewrite elem_of_getSupportedChains. unfold getConnector.
  split; [| split].
  - destruct (connectors chainId) as [c |].
    + split; [eauto | intros _; eauto].
    + split; [by intros [? ?] | by intros [? ?]].
  - destruct (connectors chainId) as [c |].
    + split; [intros H; destruct H; eauto | done].
    + split; [done | by intros _ [? ?]].
  - unfold getSupportedChains. apply NoDup_ListNoDup, List.NoDup_filter.
    apply NoDup_ListNoDup, NoDup_keys.
Qed.


End SwapConnectorCoverage.

(** ** The order pipeline: the ways [processOrder] ends *)

Section PipelineCoverage.
Import UniversalProcessor Scenarios.

(** Unfolds a run of [processOrder] down to the answers it examines. *)
Ltac unfold_flow :=
  unfold processOrder, fulfillStage, confirmationStage, preEstimationStage,
    finalEstimationStage, clearInternalQueues, mempool_addOrder, mempool_delete,
    batch_addOrder, when, await, return_, throw, modify, mbind, M_bind, mret,
    M_ret in *.

(** X10.  [processOrder] drops an order, leaving the processor as it was
    (nothing queued, sent or scheduled), when no bucket covers it, when the
    take chain already has a status other than [NotSet] for it, and when the
    give chain does not have it as [Created]; when the take chain's status
    cannot be read, what the client threw is thrown on, again with the
    processor as it was. *)
Theorem processOrder_drops_without_trace (env : Env) (id : string)
    (params : IncomingOrderContext) (s : Processor) :
  (bucketFound env = false ->
   processOrder env id (Some params) s = (Return, s))
  /\ (forall st,
        bucketFound env = true ->
        getTakeOrderStatus env = Ok (Some st) ->
        st ≠ OrderState.NotSet ->
        processOrder env id (Some params) s = (Return, s))
  /\ (forall giveStatus,
        bucketFound env = true ->
        getTakeOrderStatus env = Ok None
        \/ getTakeOrderStatus env = Ok (Some OrderState.NotSet) ->
        getGiveOrderStatus env = Ok giveStatus ->
        giveStatus ≠ Some OrderState.Created ->
        processOrder env id (Some params) s = (Return, s))
  /\ (forall e,
        bucketFound env = true ->
        getTakeOrderStatus env = Throw e ->
        processOrder env id (Some params) s = (Raise e, s)).
Proof.
  repeat split.
  - intros Hb. unfold_flow. by rewrite Hb.
  - intros st Hb Ht Hne. unfold_flow. rewrite Hb, Ht. simpl.
    by destruct st.
  - intros giveStatus Hb Ht Hg Hne.
    unfold_flow. rewrite Hb, Hg. simpl.
    destruct Ht as [-> | ->]; simpl.
    + destruct giveStatus as [[] |]; done.
    + destruct giveStatus as [[] |]; done.
  - intros e Hb Ht. unfold_flow. by rewrite Hb, Ht.
Qed.

(** X11.  A [Created] order whose finalization was revoked and that passes
    the on-chain checks is taken out of the priority queue, the secondary
    queue, the incoming-orders map and the mempool scheduler, and
    [processOrder] returns: no transaction is sent and nothing goes to the
    batch unlocker. *)
Theorem revoked_order_is_cleared (env : Env) (id : string)
    (params : IncomingOrderContext) (s : Processor) :
  passesOnChainChecks env ->
  status (orderInfo params) = OrderInfoStatus.Created ->
  finalization_info (orderInfo params) = Revoked ->
  processOrder env id (Some params) s
  = (Return, snd (clearInternalQueues (orderId (orderInfo params)) s))
  /\ inPriorityQueue (orderId (orderInfo params))
       (snd (processOrder env id (Some params) s)) = false
  /\ inSecondaryQueue (orderId (orderInfo params))
       (snd (processOrder env id (Some params) s)) = false
  /\ inIncomingOrdersMap (orderId (orderInfo params))
       (snd (processOrder env id (Some params) s)) = false
  /\ inMempool (orderId (orderInfo params))
       (snd (processOrder env id (Some params) s)) = false
  /\ sentTransactions (snd (processOrder env id (Some params) s))
     = sentTransactions s
  /\ batchUnlocker (snd (processOrder env id (Some params) s)) = batchUnlocker s.
Proof.
  intros Hchecks Hst Hfi.
  assert (Hrun : processOrder env id (Some params) s
                 = (Return, snd (clearInternalQueues (orderId (orderInfo params)) s))).
  { rewrite processOrder_after_checks by done.
    unfold confirmationStage. by rewrite Hst, Hfi. }
  split; [exact Hrun |]. rewrite Hrun.
  unfold inPriorityQueue, inSecondaryQueue, inIncomingOrdersMap, inMempool. simpl.
  split; [apply bool_decide_eq_false_2, not_elem_of_set_delete |].
  split; [apply bool_decide_eq_false_2, not_elem_of_set_delete |].
  split; [apply bool_decide_eq_false_2; rewrite lookup_delete_eq; by intros [? ?] |].
  split; [apply bool_decide_eq_false_2; rewrite lookup_delete_eq; by intros [? ?] |].
  done.
Qed.

(** "A" was delivered a second time while being processed; it turns out
    revoked: it leaves the priority queue and the map. *)
Lemma revoked_order_is_cleared_witness :
  inPriorityQueue "A" processingA_redelivered = true
  /\ inPriorityQueue "A"
       (snd (processOrder allGood "A" (Some orderA_revoked) processingA_redelivered))
     = false
  /\ inIncomingOrdersMap "A"
       (snd (processOrder allGood "A" (Some orderA_revoked) processingA_redelivered))
     = false.
Proof.
  assert (Hchecks : passesOnChainChecks allGood)
    by (apply allGood_passesOnChainChecks; by right).
  destruct (revoked_order_is_cleared allGood "A" orderA_revoked
              processingA_redelivered Hchecks eq_refl eq_refl)
    as (_ & Hp & _ & Hm & _).
  split; [reflexivity |]. split; [exact Hp | exact Hm].
Defined.

Section ReachedEvaluation.
(** The order has come as far as the profitability evaluation. *)
Context (env : Env) (id : string) (params : IncomingOrderContext) (s : Processor)
  (allowPlaceToMempool : bool) (picked : PickedBucket) (decimals : Z * Z)
  (balance : Z) (caps : option Z * option Z) (expected : ExpectedTakeAmount).
Hypothesis Hchecks : passesOnChainChecks env.
Hypothesis Hconfirmation :
  confirmationStage env params s = (Next allowPlaceToMempool, s).
Hypothesis Hpicked : pickReserveToken env = Ok picked.
Hypothesis Hdecimals : reserveTokenDecimals env = Ok decimals.
Hypothesis Hbalance : getBalance env = Ok balance.
Hypothesis Hcovered :
  roughReserveDstAmount (amount (give (order (orderInfo params))))
    (fst decimals) (snd decimals) <= balance.
Hypothesis HpreEstimation : preEstimationStage env params s = (Next caps, s).
Hypothesis Hexpected : calculateExpectedTakeAmount env = Ok expected.

Ltac to_evaluation :=
  rewrite processOrder_after_checks by done;
  unfold mbind at 1; unfold M_bind at 1; rewrite Hconfirmation;
  unfold fulfillStage; rewrite Hpicked, Hdecimals, Hbalance, Hexpected;
  unfold mbind, M_bind; simpl;
  destruct (Z.ltb_spec balance
              (roughReserveDstAmount (amount (give (order (orderInfo params))))
                 (fst decimals) (snd decimals))); [lia |];
  simpl; rewrite HpreEstimation; simpl.

(** X12.  An order that the evaluator finds unprofitable is not fulfilled:
    [processOrder] returns without sending a transaction, and the order goes
    to the mempool scheduler (with the standard delay) exactly when
    [allowPlaceToMempool] holds, that is, unless it was admitted before its
    finalization. *)
Theorem unprofitable_order_waits_in_mempool_if_allowed :
  isProfitable expected = false ->
  processOrder env id (Some params) s
  = (Return,
     if allowPlaceToMempool
     then set_mempoolService
            (insert (orderId (orderInfo params))
                    {| entry_params := params; entry_delay := None |}) s
     else s).
Proof.
  intros Hprofit. to_evaluation. rewrite Hprofit. simpl.
  by destruct allowPlaceToMempool.
Qed.

Context (fulfillTx sentTx : Tx).
Hypothesis Hprofitable : isProfitable expected = true.
Hypothesis Htoken : reserveDstToken expected = picked_reserveDstToken picked.
Hypothesis HfulfillTx : finalFulfillTx env = Ok fulfillTx.
Hypothesis HfinalEstimation :
  finalEstimationStage env params fulfillTx (fst caps) (snd caps) s
  = (Next sentTx, s).

Ltac to_broadcast :=
  to_evaluation; rewrite Hprofitable; simpl;
  rewrite bool_decide_eq_true_2 by done; simpl;
  rewrite HfulfillTx; simpl; rewrite HfinalEstimation; simpl.

(** X13.  When [sendTransaction] throws, the transaction was handed to the
    provider once, [processOrder] returns, the order stays in the queues and
    in the map as it was, nothing goes to the batch unlocker, and the order
    goes to the mempool scheduler exactly when [allowPlaceToMempool] holds. *)
Theorem failed_broadcast_waits_in_mempool_if_allowed (e : Error) :
  sendTransaction env = Throw e ->
  processOrder env id (Some params) s
  = (Return,
     (if allowPlaceToMempool
      then set_mempoolService
             (insert (orderId (orderInfo params))
                     {| entry_params := params; entry_delay := None |})
      else fun s' => s')
       (set_sentTransactions (fun txs => txs ++ [sentTx]) s)).
Proof.
  intros Hsend. to_broadcast. rewrite Hsend. simpl.
  by destruct allowPlaceToMempool.
Qed.

(** X14.  When the transaction is sent and the fulfilment is observed,
    [processOrder] has handed exactly that one transaction to the provider,
    has taken the order out of the priority queue, the secondary queue, the
    incoming-orders map and the mempool scheduler (it may have come again
    while it was processed), and has handed it to the batch unlocker last. *)
Theorem fulfilled_order_is_cleared_and_batched :
  sendTransaction env = Ok tt ->
  waitIsOrderFulfilled env = Ok tt ->
  processOrder env id (Some params) s
  = (Next tt,
     set_batchUnlocker
       (fun calls => calls ++ [AddOrder (orderId (orderInfo params))])
       (snd (clearInternalQueues (orderId (orderInfo params))
               (set_sentTransactions (fun txs => txs ++ [sentTx]) s))))
  /\ sentTransactions (snd (processOrder env id (Some params) s))
     = sentTransactions s ++ [sentTx]
  /\ batchUnlocker (snd (processOrder env id (Some params) s))
     = batchUnlocker s ++ [AddOrder (orderId (orderInfo params))]
  /\ places (orderId (orderInfo params))
       (snd (processOrder env id (Some params) s))
     = Nat.b2n (isInFlight (orderId (orderInfo params)) s)
  /\ inIncomingOrdersMap (orderId (orderInfo params))
       (snd (processOrder env id (Some params) s)) = false.
Proof.
  intros Hsend Hwait.
  assert (Hrun : processOrder env id (Some params) s
    = (Next tt,
       set_batchUnlocker
         (fun calls => calls ++ [AddOrder (orderId (orderInfo params))])
         (snd (clearInternalQueues (orderId (orderInfo params))
                 (set_sentTransactions (fun txs => txs ++ [sentTx]) s))))).
  { to_broadcast. by rewrite Hsend, Hwait. }
  split; [exact Hrun |]. rewrite Hrun. simpl.
  split; [done |]. split; [done |].
  unfold places, inPriorityQueue, inSecondaryQueue, inMempool, isInFlight,
    inIncomingOrdersMap. simpl.
  rewrite !lookup_delete_eq.
  rewrite (bool_decide_eq_false_2 (_ ∈ set_delete _ (priorityQueue s)))
    by apply not_elem_of_set_delete.
  rewrite (bool_decide_eq_false_2 (_ ∈ set_delete _ (queue s)))
    by apply not_elem_of_set_delete.
  rewrite (bool_decide_eq_false_2 (is_Some None)) by (by intros [? ?]).
  split; [simpl; lia | done].
Qed.

(** X15.  When the transaction is sent and [waitIsOrderFulfilled] throws,
    the error leaves [processOrder]: the transaction was handed to the
    provider, and the order is neither put into the mempool scheduler, nor
    taken out of the queues, nor handed to the batch unlocker. *)
Theorem failed_wait_leaves_order_in_place (e : Error) :
  sendTransaction env = Ok tt ->
  waitIsOrderFulfilled env = Throw e ->
  processOrder env id (Some params) s
  = (Raise e, set_sentTransactions (fun txs => txs ++ [sentTx]) s).
Proof.
  intros Hsend Hwait. to_broadcast. by rewrite Hsend, Hwait.
Qed.

End ReachedEvaluation.

Lemma withOutcome_passesOnChainChecks (env : Env)
    (expected : Res ExpectedTakeAmount) (sent waited : Res unit) :
  passesOnChainChecks env ->
  passesOnChainChecks (withOutcome env expected sent waited).
Proof. intros H. exact H. Qed.

Lemma allGood_checks : passesOnChainChecks allGood.
Proof. apply allGood_passesOnChainChecks; by right. Qed.

Ltac by_evaluation :=
  first [ apply withOutcome_passesOnChainChecks, allGood_checks
        | exact allGood_checks
        | vm_compute; reflexivity
        | vm_compute; discriminate ].

(** The finalized order "A" goes to the mempool when unprofitable; the same
    order admitted on 12 confirmations does not. *)
Lemma unprofitable_order_waits_in_mempool_if_allowed_witness :
  inMempool "A"
    (snd (processOrder unprofitable "A" (Some orderA_finalized) processingA)) = true
  /\ inMempool "A"
       (snd (processOrder unprofitable "A" (Some orderA_confirmed12)
               processingA_confirmed12)) = false.
Proof.
  split.
  - rewrite (unprofitable_order_waits_in_mempool_if_allowed unprofitable "A"
               orderA_finalized processingA true
               {| picked_reserveSrcToken := "USDC"; picked_reserveDstToken := "USDC" |}
               (6, 6) 200 (Some 125000, Some 39) notProfitable);
      by_evaluation.
  - rewrite (unprofitable_order_waits_in_mempool_if_allowed unprofitable "A"
               orderA_confirmed12 processingA_confirmed12 false
               {| picked_reserveSrcToken := "USDC"; picked_reserveDstToken := "USDC" |}
               (6, 6) 200 (Some 125000, Some 39) notProfitable);
      by_evaluation.
Defined.

Lemma failed_broadcast_waits_in_mempool_if_allowed_witness :
  processOrder broadcastFails "A" (Some orderA_finalized) processingA
  = (Return,
     set_mempoolService
       (insert "A" {| entry_params := orderA_finalized; entry_delay := None |})
       (set_sentTransactions (fun txs => txs ++ [cappedTx]) processingA))
  /\ processOrder broadcastFails "A" (Some orderA_confirmed12) processingA_confirmed12
     = (Return,
        set_sentTransactions (fun txs => txs ++ [cappedTx]) processingA_confirmed12).
Proof.
  split.
  - apply (failed_broadcast_waits_in_mempool_if_allowed broadcastFails "A"
             orderA_finalized processingA true
             {| picked_reserveSrcToken := "USDC"; picked_reserveDstToken := "USDC" |}
             (6, 6) 200 (Some 125000, Some 39) profitable ltac:(by_evaluation)
             ltac:(by_evaluation) eq_refl eq_refl eq_refl ltac:(by_evaluation)
             ltac:(by_evaluation) eq_refl fulfillTx cappedTx eq_refl eq_refl eq_refl
             ltac:(by_evaluation) Rejected eq_refl).
  - apply (failed_broadcast_waits_in_mempool_if_allowed broadcastFails "A"
             orderA_confirmed12 processingA_confirmed12 false
             {| picked_reserveSrcToken := "USDC"; picked_reserveDstToken := "USDC" |}
             (6, 6) 200 (Some 125000, Some 39) profitable ltac:(by_evaluation)
             ltac:(by_evaluation) eq_refl eq_refl eq_refl ltac:(by_evaluation)
             ltac:(by_evaluation) eq_refl fulfillTx cappedTx eq_refl eq_refl eq_refl
             ltac:(by_evaluation) Rejected eq_refl).
Defined.

(** "A" came a second time while it was processed: after its fulfilment it
    is in no queue. *)
Lemma fulfilled_order_is_cleared_and_batched_witness :
  places "A" processingA_redelivered = 2%nat
  /\ places "A"
       (snd (processOrder allGood "A" (Some orderA_finalized) processingA_redelivered))
     = 1%nat
  /\ batchUnlocker
       (snd (processOrder allGood "A" (Some orderA_finalized) processingA_redelivered))
     = [AddOrder "A"]
  /\ sentTransactions
       (snd (processOrder allGood "A" (Some orderA_finalized) processingA_redelivered))
     = [cappedTx].
Proof.
  destruct (fulfilled_order_is_cleared_and_batched allGood "A"
              orderA_finalized processingA_redelivered true
              {| picked_reserveSrcToken := "USDC"; picked_reserveDstToken := "USDC" |}
              (6, 6) 200 (Some 125000, Some 39) profitable ltac:(by_evaluation)
              ltac:(by_evaluation) eq_refl eq_refl eq_refl ltac:(by_evaluation)
              ltac:(by_evaluation) eq_refl fulfillTx cappedTx eq_refl eq_refl eq_refl
              ltac:(by_evaluation) eq_refl eq_refl)
    as (_ & Hsent & Hbatch & Hplaces & _).
  split; [reflexivity |]. split; [exact Hplaces |].
  split; [exact Hbatch | exact Hsent].
Defined.

Lemma failed_wait_leaves_order_in_place_witness :
  processOrder waitFails "A" (Some orderA_finalized) processingA
  = (Raise Rejected, set_sentTransactions (fun txs => txs ++ [cappedTx]) processingA).
Proof.
  apply (failed_wait_leaves_order_in_place waitFails "A"
           orderA_finalized processingA true
           {| picked_reserveSrcToken := "USDC"; picked_reserveDstToken := "USDC" |}
           (6, 6) 200 (Some 125000, Some 39) profitable ltac:(by_evaluation)
           ltac:(by_evaluation) eq_refl eq_refl eq_refl ltac:(by_evaluation)
           ltac:(by_evaluation) eq_refl fulfillTx cappedTx eq_refl eq_refl eq_refl
           ltac:(by_evaluation) Rejected eq_refl eq_refl).
Defined.

(** *** What [processOrder] never does *)

Lemma processOrder_unchanged_or_checks (env : Env) (id : string)
    (params : IncomingOrderContext) (s : Processor) :
  snd (processOrder env id (Some params) s) = s \/ passesOnChainChecks env.
Proof.
  unfold passesOnChainChecks.
  destruct (bucketFound env) eqn:Hb;
    [| left; unfold_flow; by rewrite Hb].
  destruct (getTakeOrderStatus env) as [[[] |] | e] eqn:Ht;
    try (left; unfold_flow; by rewrite Hb, Ht);
    (destruct (getGiveOrderStatus env) as [[[] |] | e'] eqn:Hg;
     try (left; unfold_flow; by rewrite Hb, Ht, Hg));
    right; auto.
Qed.

Lemma confirmationStage_Next (env : Env) (params : IncomingOrderContext)
    (s s' : Processor) (allow : bool) :
  confirmationStage env params s = (Next allow, s') -> s' = s.
Proof.
  unfold confirmationStage. unfold_flow.
  repeat (case_match; simpl; try congruence).
Qed.

Lemma confirmationStage_logs (env : Env) (params : IncomingOrderContext)
    (s : Processor) :
  sentTransactions (snd (confirmationStage env params s)) = sentTransactions s
  /\ batchUnlocker (snd (confirmationStage env params s)) = batchUnlocker s.
Proof.
  unfold confirmationStage. unfold_flow.
  repeat (case_match; simplify_eq/=; try done).
Qed.

(** What a call of [processOrder] can have done to the provider and to the
    batch unlocker, and on which answers. *)
Lemma processOrder_effects (env : Env) (id : string)
    (params : IncomingOrderContext) (s : Processor) :
  (sentTransactions (snd (processOrder env id (Some params) s)) = sentTransactions s
   /\ batchUnlocker (snd (processOrder env id (Some params) s)) = batchUnlocker s)
  \/ exists tx expected picked decimals balance raw,
       sentTransactions (snd (processOrder env id (Some params) s))
       = sentTransactions s ++ [tx]
       /\ passesOnChainChecks env
       /\ calculateExpectedTakeAmount env = Ok expected
       /\ isProfitable expected = true
       /\ pickReserveToken env = Ok picked
       /\ reserveDstToken expected = picked_reserveDstToken picked
       /\ reserveTokenDecimals env = Ok decimals
       /\ getBalance env = Ok balance
       /\ roughReserveDstAmount (amount (give (order (orderInfo params))))
            (fst decimals) (snd decimals) <= balance
       /\ finalFulfillTx env = Ok raw
       /\ tx_payload tx = tx_payload raw
       /\ (getEngineByChainId (takeChain s) = EVM ->
           getEngineByChainId (chainId (take (order (orderInfo params)))) = EVM ->
           exists preliminary price final,
             preliminaryEstimateGas env = Ok preliminary
             /\ getGasPrice env = Ok price
             /\ finalEstimateGas env = Ok final
             /\ final <= round_mul_1_25 preliminary
             /\ gas tx = Some (round_mul_1_25 preliminary)
             /\ cappedGasPrice tx = Some (cappedGasPriceOf price))
       /\ (batchUnlocker (snd (processOrder env id (Some params) s)) = batchUnlocker s
           \/ (batchUnlocker (snd (processOrder env id (Some params) s))
               = batchUnlocker s ++ [AddOrder (orderId (orderInfo params))]
               /\ sendTransaction env = Ok tt
               /\ waitIsOrderFulfilled env = Ok tt)).
Proof.
  destruct (processOrder_unchanged_or_checks env id params s) as [-> | Hchecks];
    [by left |].
  rewrite processOrder_after_checks by done.
  replace ((confirmationStage env params ≫= fulfillStage env params) s)
    with (match confirmationStage env params s with
          | (Next allow, s') => fulfillStage env params allow s'
          | (Return, s') => (Return, s')
          | (Raise e, s') => (Raise e, s')
          end)
    by (unfold mbind, M_bind; by destruct (confirmationStage env params s) as [[] ?]).
  pose proof (confirmationStage_logs env params s) as Hlogs.
  destruct (confirmationStage env params s) as [[allow | | e] s'] eqn:Hstage;
    [| by left | by left].
  apply confirmationStage_Next in Hstage as ->. clear Hlogs.
  destruct Hchecks as (Hbucket & Htake & Hgive).
  unfold fulfillStage, preEstimationStage, finalEstimationStage, exceeds,
    passesOnChainChecks.
  unfold_flow.
  repeat (case_match; simplify_eq/=; try (left; done)).
  all: right.
  all: eexists _, _, _, _, _, _.
  all: repeat match goal with
         | H : bool_decide _ = true |- _ => apply bool_decide_eq_true_1 in H
         | H : negb _ = false |- _ => apply negb_false_iff in H
         | H : (_ <? _) = false |- _ => apply Z.ltb_ge in H
         end.
  all: repeat split; eauto.
  all: try (intros; try congruence; eexists _, _, _; repeat split; eauto; done).
  all: try (by left).
  all: try (right; repeat match goal with u : unit |- _ => destruct u end; done).
Qed.

(** X16.  A call of [processOrder] hands at most one transaction to the
    provider, and only for an order that passed the on-chain checks, whose
    give amount (in the reserve token's decimals) the reserve balance covers,
    that the evaluator found profitable with the reserve token the processor
    picked; the transaction is the one [createOrderFullfillTx] built from the
    evaluator's answer. *)
Theorem transaction_only_for_profitable_covered_order (env : Env) (id : string)
    (params : IncomingOrderContext) (s : Processor) :
  sentTransactions (snd (processOrder env id (Some params) s)) = sentTransactions s
  \/ exists tx expected picked decimals balance raw,
       sentTransactions (snd (processOrder env id (Some params) s))
       = sentTransactions s ++ [tx]
       /\ passesOnChainChecks env
       /\ calculateExpectedTakeAmount env = Ok expected
       /\ isProfitable expected = true
       /\ pickReserveToken env = Ok picked
       /\ reserveDstToken expected = picked_reserveDstToken picked
       /\ reserveTokenDecimals env = Ok decimals
       /\ getBalance env = Ok balance
       /\ roughReserveDstAmount (amount (give (order (orderInfo params))))
            (fst decimals) (snd decimals) <= balance
       /\ finalFulfillTx env = Ok raw
       /\ tx_payload tx = tx_payload raw.
Proof.
  destruct (processOrder_effects env id params s)
    as [[Hsent _] | (tx & expected & picked & decimals & balance & raw & H)];
    [by left | right].
  exists tx, expected, picked, decimals, balance, raw. tauto.
Qed.

(** X17.  On an EVM take chain, a transaction that [processOrder] hands to
    the provider carries as gas limit the preliminary estimate times 1.25,
    rounded, and as gas price cap the current gas price times 1.3, rounded;
    the final estimate of the gas it needs does not exceed that limit. *)
Theorem sent_transaction_within_declared_gas (env : Env) (id : string)
    (params : IncomingOrderContext) (s : Processor) (tx : Tx) :
  getEngineByChainId (takeChain s) = EVM ->
  getEngineByChainId (chainId (take (order (orderInfo params)))) = EVM ->
  sentTransactions (snd (processOrder env id (Some params) s))
  = sentTransactions s ++ [tx] ->
  exists preliminary price final,
    preliminaryEstimateGas env = Ok preliminary
    /\ getGasPrice env = Ok price
    /\ finalEstimateGas env = Ok final
    /\ final <= round_mul_1_25 preliminary
    /\ gas tx = Some (round_mul_1_25 preliminary)
    /\ cappedGasPrice tx = Some (cappedGasPriceOf price).
Proof.
  intros Hengine Htake Hsent.
  destruct (processOrder_effects env id params s)
    as [[Hsame _] | (tx' & expected & picked & decimals & balance & raw & Hsent' & H)].
  - rewrite Hsame in Hsent. apply (f_equal length) in Hsent.
    rewrite length_app in Hsent. simpl in Hsent. lia.
  - rewrite Hsent' in Hsent. apply app_inv_head in Hsent. injection Hsent as ->.
    destruct H as (_ & _ & _ & _ & _ & _ & _ & _ & _ & _ & Hgas & _).
    by apply Hgas.
Qed.

Lemma sent_transaction_within_declared_gas_witness :
  exists preliminary price final,
    preliminaryEstimateGas allGood = Ok preliminary
    /\ getGasPrice allGood = Ok price
    /\ finalEstimateGas allGood = Ok final
    /\ final <= round_mul_1_25 preliminary
    /\ gas cappedTx = Some (round_mul_1_25 preliminary)
    /\ cappedGasPrice cappedTx = Some (cappedGasPriceOf price).
Proof.
  apply (sent_transaction_within_declared_gas allGood "A" orderA_finalized
           processingA cappedTx eq_refl eq_refl).
  vm_compute. reflexivity.
Defined.

(** X18.  A call of [processOrder] hands an order to the batch unlocker
    only if it is its own order, after its transaction was sent and the
    fulfilment was observed; otherwise the batch unlocker is left alone. *)
Theorem batch_unlocker_only_after_fulfilment (env : Env) (id : string)
    (params : IncomingOrderContext) (s : Processor) :
  batchUnlocker (snd (processOrder env id (Some params) s)) = batchUnlocker s
  \/ (batchUnlocker (snd (processOrder env id (Some params) s))
      = batchUnlocker s ++ [AddOrder (orderId (orderInfo params))]
      /\ sendTransaction env = Ok tt
      /\ waitIsOrderFulfilled env = Ok tt
      /\ exists tx,
           sentTransactions (snd (processOrder env id (Some params) s))
           = sentTransactions s ++ [tx]).
Proof.
  destruct (processOrder_effects env id params s)
    as [[_ Hbatch] | (tx & expected & picked & decimals & balance & raw & Hsent & H)];
    [by left |].
  destruct H as (_ & _ & _ & _ & _ & _ & _ & _ & _ & _ & _ & [Hbatch | Hbatch]);
    [by left | right].
  destruct Hbatch as (Hbatch & Hsend & Hwait). eauto.
Qed.

(** *** What [processOrder] leaves alone *)

Lemma set_delete_idemp (x : string) (l : list string) :
  set_delete x (set_delete x l) = set_delete x l.
Proof.
  unfold set_delete. induction l as [| y l IH]; [done |].
  rewrite filter_cons. case_decide as Hy; [| exact IH].
  rewrite filter_cons. case_decide; [| done]. by rewrite IH.
Qed.

(** X19.  A call of [processOrder] leaves the other orders where they are:
    for every id but its own order's, membership in the two queues, the
    context in the incoming-orders map and the entry in the mempool
    scheduler are as before; the order of the queues, the lock, the awaited
    call and the take chain are as before too. *)
Theorem processOrder_touches_only_its_order (env : Env) (id : string)
    (params : IncomingOrderContext) (s : Processor) (other : string) :
  other ≠ orderId (orderInfo params) ->
  (other ∈ priorityQueue (snd (processOrder env id (Some params) s))
   <-> other ∈ priorityQueue s)
  /\ (other ∈ queue (snd (processOrder env id (Some params) s)) <-> other ∈ queue s)
  /\ incomingOrdersMap (snd (processOrder env id (Some params) s)) !! other
     = incomingOrdersMap s !! other
  /\ mempoolService (snd (processOrder env id (Some params) s)) !! other
     = mempoolService s !! other
  /\ set_delete (orderId (orderInfo params))
       (priorityQueue (snd (processOrder env id (Some params) s)))
     = set_delete (orderId (orderInfo params)) (priorityQueue s)
  /\ set_delete (orderId (orderInfo params))
       (queue (snd (processOrder env id (Some params) s)))
     = set_delete (orderId (orderInfo params)) (queue s)
  /\ isLocked (snd (processOrder env id (Some params) s)) = isLocked s
  /\ inFlight (snd (processOrder env id (Some params) s)) = inFlight s
  /\ takeChain (snd (processOrder env id (Some params) s)) = takeChain s.
Proof.
  intros Hother.
  apply (processOrder_preserves
           (fun s' =>
              (other ∈ priorityQueue s' <-> other ∈ priorityQueue s)
              /\ (other ∈ queue s' <-> other ∈ queue s)
              /\ incomingOrdersMap s' !! other = incomingOrdersMap s !! other
              /\ mempoolService s' !! other = mempoolService s !! other
              /\ set_delete (orderId (orderInfo params)) (priorityQueue s')
                 = set_delete (orderId (orderInfo params)) (priorityQueue s)
              /\ set_delete (orderId (orderInfo params)) (queue s')
                 = set_delete (orderId (orderInfo params)) (queue s)
              /\ isLocked s' = isLocked s
              /\ inFlight s' = inFlight s
              /\ takeChain s' = takeChain s)).
  - intros p delay [= <-] s' H. simpl.
    rewrite lookup_insert_ne by done. exact H.
  - intros p [= <-] s' (H1 & H2 & H3 & H4 & H5 & H6 & H7). simpl.
    rewrite !elem_of_set_delete, !lookup_delete_ne by done.
    rewrite !set_delete_idemp. tauto.
  - intros p [= <-] s' H. exact H.
  - intros f s' H. exact H.
  - tauto.
Qed.

(** "B" and "C" wait while "A" is fulfilled. *)
Lemma processOrder_touches_only_its_order_witness :
  ("B" ∈ priorityQueue
           (snd (processOrder allGood "A" (Some orderA_finalized) processingA_waitingBC))
   <-> "B" ∈ priorityQueue processingA_waitingBC)
  /\ incomingOrdersMap
       (snd (processOrder allGood "A" (Some orderA_finalized) processingA_waitingBC))
       !! "B"
     = incomingOrdersMap processingA_waitingBC !! "B".
Proof.
  destruct (processOrder_touches_only_its_order allGood "A" orderA_finalized
              processingA_waitingBC "B" ltac:(discriminate))
    as (Hp & _ & Hm & _).
  split; [exact Hp | exact Hm].
Defined.

(** *** Failed gas estimations *)

Section ReachedEstimation.
(** The order has come as far as the gas estimations: the reserve balance
    covers it. *)
Context (env : Env) (id : string) (params : IncomingOrderContext) (s : Processor)
  (allowPlaceToMempool : bool) (picked : PickedBucket) (decimals : Z * Z)
  (balance : Z).
Hypothesis Hchecks : passesOnChainChecks env.
Hypothesis Hconfirmation :
  confirmationStage env params s = (Next allowPlaceToMempool, s).
Hypothesis Hpicked : pickReserveToken env = Ok picked.
Hypothesis Hdecimals : reserveTokenDecimals env = Ok decimals.
Hypothesis Hbalance : getBalance env = Ok balance.
Hypothesis Hcovered :
  roughReserveDstAmount (amount (give (order (orderInfo params))))
    (fst decimals) (snd decimals) <= balance.

Ltac to_estimation :=
  rewrite processOrder_after_checks by done;
  unfold mbind at 1; unfold M_bind at 1; rewrite Hconfirmation;
  unfold fulfillStage; rewrite Hpicked, Hdecimals, Hbalance;
  unfold mbind, M_bind; simpl;
  destruct (Z.ltb_spec balance
              (roughReserveDstAmount (amount (give (order (orderInfo params))))
                 (fst decimals) (snd decimals))); [lia |];
  simpl.

(** X20.  On an EVM take chain, when building the preliminary transaction,
    reading the gas price or the preliminary gas estimation fails, or when
    the final gas estimation of a profitable order fails, [processOrder]
    returns, sends nothing, and puts the order into the mempool scheduler
    with the standard delay, whatever [allowPlaceToMempool] is: also an order
    admitted before its finalization. *)
Theorem failed_estimation_goes_to_mempool :
  (getEngineByChainId (takeChain s) = EVM ->
   is_Throw (preliminaryFulfillTx env) || is_Throw (getGasPrice env)
   || is_Throw (preliminaryEstimateGas env) = true ->
   processOrder env id (Some params) s
   = (Return,
      set_mempoolService
        (insert (orderId (orderInfo params))
                {| entry_params := params; entry_delay := None |}) s))
  /\ (forall caps expected raw e,
        preEstimationStage env params s = (Next caps, s) ->
        calculateExpectedTakeAmount env = Ok expected ->
        isProfitable expected = true ->
        reserveDstToken expected = picked_reserveDstToken picked ->
        finalFulfillTx env = Ok raw ->
        getEngineByChainId (chainId (take (order (orderInfo params)))) = EVM ->
        finalEstimateGas env = Throw e ->
        processOrder env id (Some params) s
        = (Return,
           set_mempoolService
             (insert (orderId (orderInfo params))
                     {| entry_params := params; entry_delay := None |}) s)).
Proof.
  split.
  - intros Hengine Hfails. to_estimation.
    unfold preEstimationStage. rewrite Hengine.
    destruct (preliminaryFulfillTx env), (getGasPrice env),
      (preliminaryEstimateGas env); simpl in Hfails; done.
  - intros caps expected raw e Hpre Hexpected Hprofitable Htoken Hraw Hengine Hfinal.
    to_estimation. rewrite Hpre. simpl. rewrite Hexpected. simpl.
    rewrite Hprofitable. simpl. rewrite bool_decide_eq_true_2 by done. simpl.
    rewrite Hraw. simpl. unfold finalEstimationStage.
    by rewrite Hengine, Hfinal.
Qed.

End ReachedEstimation.

(** "A", admitted on 12 confirmations, goes to the mempool when an
    estimation is rejected. *)
Lemma failed_estimation_goes_to_mempool_witness :
  inMempool "A"
    (snd (processOrder preEstimateFails "A" (Some orderA_confirmed12)
            processingA_confirmed12)) = true
  /\ inMempool "A"
       (snd (processOrder finalEstimateFails "A" (Some orderA_confirmed12)
               processingA_confirmed12)) = true.
Proof.
  split.
  - destruct (failed_estimation_goes_to_mempool preEstimateFails "A"
                orderA_confirmed12 processingA_confirmed12 false
                {| picked_reserveSrcToken := "USDC"; picked_reserveDstToken := "USDC" |}
                (6, 6) 200 ltac:(exact allGood_checks) ltac:(by_evaluation)
                eq_refl eq_refl eq_refl ltac:(by_evaluation)) as [Hpre _].
    rewrite Hpre by reflexivity. reflexivity.
  - destruct (failed_estimation_goes_to_mempool finalEstimateFails "A"
                orderA_confirmed12 processingA_confirmed12 false
                {| picked_reserveSrcToken := "USDC"; picked_reserveDstToken := "USDC" |}
                (6, 6) 200 ltac:(exact allGood_checks) ltac:(by_evaluation)
                eq_refl eq_refl eq_refl ltac:(by_evaluation)) as [_ Hfinal].
    rewrite (Hfinal (Some 125000, Some 39) profitable fulfillTx Rejected)
      by by_evaluation.
    reflexivity.
Defined.

(** *** The backlog drains *)

Lemma backlog_processOrder (env : Env) (id : string)
    (lookup : option IncomingOrderContext) (s : Processor) :
  (backlog (snd (processOrder env id lookup s)) <= backlog s)%nat.
Proof.
  unfold backlog.
  cut ((length (priorityQueue (snd (processOrder env id lookup s)))
        <= length (priorityQueue s))%nat
       /\ (length (queue (snd (processOrder env id lookup s)))
           <= length (queue s))%nat); [lia |].
  apply (processOrder_preserves
           (fun s' => (length (priorityQueue s') <= length (priorityQueue s))%nat
                      /\ (length (queue s') <= length (queue s))%nat)).
  - intros p delay _ s' H. exact H.
  - intros p _ s' [H1 H2]. simpl. unfold set_delete.
    pose proof (length_filter (fun y => y ≠ orderId (orderInfo p)) (priorityQueue s')).
    pose proof (length_filter (fun y => y ≠ orderId (orderInfo p)) (queue s')).
    lia.
  - intros p _ s' H. exact H.
  - intros f s' H. exact H.
  - lia.
Qed.

Lemma resume_when_idle (env : Env) (s : Processor) :
  pipeline_invariant s -> isLocked s = false ->
  snd (tryProcess_resume env s) = s.
Proof.
  intros Hinv Hidle. unfold tryProcess_resume.
  destruct (inFlight s) as [call |] eqn:Hcall; [| done].
  assert (isLocked s = true) by (apply (inv_lock _ Hinv); by rewrite Hcall).
  congruence.
Qed.

Lemma resume_progress (env : Env) (s : Processor) :
  pipeline_invariant s -> isLocked s = true ->
  isLocked (snd (tryProcess_resume env s)) = false
  \/ (backlog (snd (tryProcess_resume env s)) < backlog s)%nat.
Proof.
  intros Hinv Hlocked.
  destruct (proj1 (inv_lock _ Hinv) Hlocked) as [[id lookup] Hcall].
  rewrite (tryProcess_resume_unfold env s id lookup Hinv Hcall).
  pose proof (backlog_processOrder env id lookup s) as Hle.
  unfold processOrder_settled. rewrite Hcall.
  set (s1 := snd (processOrder env id lookup s)) in *.
  destruct (head (priorityQueue s1 ++ queue s1)) as [next |] eqn:Hhead;
    [right | by left].
  apply head_Some_elem_of, elem_of_app in Hhead.
  unfold backlog in *. simpl. unfold set_delete.
  pose proof (length_filter (fun y => y ≠ next) (priorityQueue s1)).
  pose proof (length_filter (fun y => y ≠ next) (queue s1)).
  destruct Hhead as [Hin | Hin].
  - pose proof (length_filter_lt (fun y => y ≠ next) (priorityQueue s1) next Hin
                  (fun Hne => Hne eq_refl)).
    lia.
  - pose proof (length_filter_lt (fun y => y ≠ next) (queue s1) next Hin
                  (fun Hne => Hne eq_refl)).
    lia.
Qed.

Lemma resumeAll_when_idle (envs : list Env) (s : Processor) :
  pipeline_invariant s -> isLocked s = false -> resumeAll envs s = s.
Proof.
  intros Hinv Hidle. induction envs as [| env envs IH]; [done |].
  simpl. by rewrite resume_when_idle.
Qed.

Lemma resumeAll_drains (envs : list Env) (s : Processor) :
  pipeline_invariant s ->
  (backlog s < length envs)%nat ->
  isLocked (resumeAll envs s) = false.
Proof.
  revert s. induction envs as [| env envs IH]; intros s Hinv Hlen;
    [simpl in Hlen; lia |].
  simpl.
  pose proof (invariant_tryProcess_resume env s Hinv) as Hinv'.
  destruct (isLocked s) eqn:Hlocked.
  - destruct (resume_progress env s Hinv Hlocked) as [Hidle | Hless].
    + by rewrite resumeAll_when_idle.
    + apply IH; [done |]. simpl in Hlen. lia.
  - rewrite resume_when_idle by done. by rewrite resumeAll_when_idle.
Qed.

Lemma invariant_resumeAll (envs : list Env) (s : Processor) :
  pipeline_invariant s -> pipeline_invariant (resumeAll envs s).
Proof.
  revert s. induction envs as [| env envs IH]; intros s Hinv; [done |].
  simpl. by apply IH, invariant_tryProcess_resume.
Qed.

(** X21.  The backlog drains.  From a reachable state, when the calls of
    [processOrder] end one after the other, whatever their outcome, and no
    event comes in between, then after more calls than orders wait in the two
    queues the slot is free and both queues are empty: no queued order is
    left behind. *)
Theorem backlog_drains (chain : ChainId) (envs : list Env) (s : Processor) :
  reachable chain s ->
  (backlog s < length envs)%nat ->
  isLocked (resumeAll envs s) = false
  /\ inFlight (resumeAll envs s) = None
  /\ priorityQueue (resumeAll envs s) = []
  /\ queue (resumeAll envs s) = [].
Proof.
  intros Hreach Hlen. apply reachable_invariant in Hreach.
  pose proof (resumeAll_drains envs s Hreach Hlen) as Hidle.
  pose proof (invariant_resumeAll envs s Hreach) as Hinv.
  split; [done |]. split.
  - destruct (inFlight (resumeAll envs s)) eqn:Hcall; [| done].
    assert (isLocked (resumeAll envs s) = true)
      by (apply (inv_lock _ Hinv); by rewrite Hcall).
    congruence.
  - by apply (inv_idle _ Hinv).
Qed.

(** "A" is processed, "B" and "C" wait: three calls later nothing waits,
    whether the balance is short, the node is down or all goes well. *)
Lemma backlog_drains_witness :
  backlog processingA_waitingBC = 2%nat
  /\ isLocked (resumeAll [shortBalance; rpcDown; allGood] processingA_waitingBC) = false
  /\ priorityQueue (resumeAll [shortBalance; rpcDown; allGood] processingA_waitingBC) = []
  /\ queue (resumeAll [shortBalance; rpcDown; allGood] processingA_waitingBC) = [].
Proof.
  destruct (backlog_drains Polygon [shortBalance; rpcDown; allGood]
              processingA_waitingBC reachable_processingA_waitingBC
              ltac:(vm_compute; lia))
    as (Hidle & _ & Hp & Hq).
  split; [reflexivity | done].
Defined.

(** *** Events delivered twice *)

Lemma set_add_idemp (x : string) (l : list string) :
  set_add x (set_add x l) = set_add x l.
Proof.
  unfold set_add at 1. rewrite bool_decide_eq_true_2; [done |].
  apply elem_of_set_add. by left.
Qed.

(** X22.  While the slot is taken, an order event of status [Created] or
    [ArchivalCreated] that is delivered twice in a row leaves the processor
    as it is after the first delivery: the order is queued once, and its
    context is the one delivered. *)
Theorem redelivery_while_busy_is_absorbed (params : IncomingOrderContext)
    (s : Processor) :
  isLocked s = true ->
  status (orderInfo params) = OrderInfoStatus.Created
  \/ status (orderInfo params) = OrderInfoStatus.ArchivalCreated ->
  process params (snd (process params s)) = process params s
  /\ fst (process params s) = Return
  /\ incomingOrdersMap (snd (process params s)) !! orderId (orderInfo params)
     = Some params.
Proof.
  intros Hlocked Hstatus.
  assert (Hrun : forall s0, isLocked s0 = true ->
            process params s0
            = (Return,
               (match status (orderInfo params) with
                | OrderInfoStatus.Created =>
                    set_priorityQueue (set_add (orderId (orderInfo params)))
                | _ => set_queue (set_add (orderId (orderInfo params)))
                end)
                 (set_incomingOrdersMap
                    (insert (orderId (orderInfo params)) params) s0))).
  { intros s0 Hs0. unfold process.
    destruct Hstatus as [Hst | Hst]; rewrite Hst; unfold_flow;
      unfold tryProcess; simpl; by rewrite lookup_insert_eq, Hs0, Hst. }
  rewrite (Hrun s Hlocked). simpl.
  split; [| split; [done |]].
  - rewrite Hrun by (by destruct Hstatus as [-> | ->]).
    f_equal.
    destruct Hstatus as [-> | ->]; destruct s; unfold set_priorityQueue,
      set_queue, set_incomingOrdersMap; simpl;
      by rewrite insert_insert_eq, set_add_idemp.
  - destruct Hstatus as [-> | ->]; simpl; by rewrite lookup_insert_eq.
Qed.

Lemma redelivery_while_busy_is_absorbed_witness :
  process orderB_finalized (snd (process orderB_finalized processingA))
  = process orderB_finalized processingA
  /\ priorityQueue (snd (process orderB_finalized processingA)) = ["B"].
Proof.
  destruct (redelivery_while_busy_is_absorbed orderB_finalized processingA
              eq_refl (or_introl eq_refl)) as (H & _ & _).
  split; [exact H | reflexivity].
Defined.

(** *** The batch size *)

(** X23.  The constructor rejects a given [batchUnlockSize] exactly when it
    lies outside [1, 10]; a processor that was constructed has a
    [batchUnlockSize] within [1, 10], the given one or else 10, and the batch
    size it passes to the evaluator is that number, or none exactly when the
    order gives or takes on Solana. *)
Theorem batch_size_within_bounds (given : option PartialParams) (order : OrderData) :
  match construct given with
  | None =>
      exists size, given ≫= given_batchUnlockSize = Some size
                   /\ (size < 1 \/ 10 < size)
  | Some params =>
      batchUnlockSize params = default 10 (given ≫= given_batchUnlockSize)
      /\ 1 <= batchUnlockSize params <= 10
      /\ (batchSize params order = None
          <-> chainId (give order) = Solana \/ chainId (take order) = Solana)
      /\ (forall size, batchSize params order = Some size ->
                       size = batchUnlockSize params)
  end.
Proof.
  unfold construct.
  destruct (given ≫= given_batchUnlockSize) as [size |] eqn:Hsize.
  - destruct (Z.ltb_spec 10 size); simpl; [exists size; split; [done | lia] |].
    destruct (Z.ltb_spec size 1); simpl; [exists size; split; [done | lia] |].
    destruct given as [given |]; [| done]. simpl in Hsize.
    unfold assignParams. simpl. rewrite Hsize. simpl.
    split; [done |]. split; [lia |].
    unfold batchSize. simpl.
    repeat case_bool_decide; simpl; split; try done; try tauto; try congruence.
    all: try (split; [done | intros [? | ?]; done]).
  - simpl.
    assert (Hten : batchUnlockSize
              (match given with
               | Some given => assignParams defaultParams given
               | None => defaultParams
               end) = 10).
    { destruct given as [given |]; [| done]. simpl in Hsize.
      unfold assignParams. simpl. by rewrite Hsize. }
    rewrite Hten. split; [done |]. split; [lia |].
    unfold batchSize. rewrite Hten.
    repeat case_bool_decide; simpl; split; try done; try tauto; try congruence.
    all: try (split; [done | intros [? | ?]; done]).
Qed.

End PipelineCoverage.

Section FulfillTxCoverage.
Import UniversalProcessor FulfillTx.


End FulfillTxCoverage.
